(** * Snake game (ACGm.py): grid model, snake entity and game controller.

    The Python classes [Position], [Food], [Snake] and [SnakeGame] are
    embedded as modules holding a record and its methods.  Python integers
    are [Z]; the list of body segments is a [list] with the head first.
    A method that can raise ([IndexError] on an empty body) returns an
    [option]; [random.randint] reads from an explicit generator state that
    is threaded through the methods that draw from it. *)

From Stdlib Require Import ZArith List Bool Lia.
Import ListNotations.
Open Scope Z_scope.

(** ** Constants *)

Definition WINDOW_WIDTH : Z := 800.
Definition WINDOW_HEIGHT : Z := 600.
Definition GRID_SIZE : Z := 20.
Definition GRID_WIDTH : Z := WINDOW_WIDTH / GRID_SIZE.
Definition GRID_HEIGHT : Z := WINDOW_HEIGHT / GRID_SIZE.

(** ** The random generator

    [random.randint a b] is a library call: each call consumes one raw
    draw and yields an integer of the closed interval from [a] to [b]. *)

Module Random.

Record t : Type := mk { draws : nat -> Z; cursor : nat }.

Definition advance (r : t) : t := mk (draws r) (S (cursor r)).

Definition randint (a b : Z) (r : t) : Z * t :=
  (a + (draws r (cursor r)) mod (b - a + 1), advance r).

End Random.

(** ** Direction enum *)

Inductive Direction : Type := UP | DOWN | LEFT | RIGHT.

Definition value (d : Direction) : Z * Z :=
  match d with
  | UP => (0, -1)
  | DOWN => (0, 1)
  | LEFT => (-1, 0)
  | RIGHT => (1, 0)
  end.

Definition Direction_eqb (a b : Direction) : bool :=
  match a, b with
  | UP, UP | DOWN, DOWN | LEFT, LEFT | RIGHT, RIGHT => true
  | _, _ => false
  end.

(** The dictionary literal built at the top of [Snake.set_direction]; it
    has a key for each of the four members. *)
Definition opposite (d : Direction) : Direction :=
  match d with
  | UP => DOWN
  | DOWN => UP
  | LEFT => RIGHT
  | RIGHT => LEFT
  end.

(** ** Position *)

Module Position.

Record t : Type := mk { x : Z; y : Z }.

(** [Position.__add__] *)
Definition add (self : t) (direction : Direction) : t :=
  let '(dx, dy) := value direction in
  mk (x self + dx) (y self + dy).

(** [Position.__eq__] *)
Definition eq (self other : t) : bool :=
  (x self =? x other) && (y self =? y other).

End Position.

(** ** Food *)

Module Food.

Record t : Type := mk { position : Position.t }.

(** [Food._generate_position]: the two arguments of the constructor are
    evaluated left to right, so the first draw is the column. *)
Definition _generate_position (r : Random.t) : Position.t * Random.t :=
  let '(px, r1) := Random.randint 0 (GRID_WIDTH - 1) r in
  let '(py, r2) := Random.randint 0 (GRID_HEIGHT - 1) r1 in
  (Position.mk px py, r2).

(** [Food.__init__] *)
Definition init (r : Random.t) : t * Random.t :=
  let '(p, r') := _generate_position r in (mk p, r').

(** [Food.respawn] *)
Definition respawn (self : t) (r : Random.t) : t * Random.t :=
  let '(p, r') := _generate_position r in (mk p, r').

End Food.

(** ** Snake *)

Module Snake.

Record t : Type := mk {
  body : list Position.t;
  direction : Direction;
  next_direction : Direction;
  grow_pending : bool
}.

(** [Snake.__init__] *)
Definition init : t :=
  let start_pos := Position.mk (GRID_WIDTH / 2) (GRID_HEIGHT / 2) in
  mk [start_pos] RIGHT RIGHT false.

(** [Snake.update]; [None] is the [IndexError] of [self.body[0]] on an
    empty body.  [list.pop()] drops the last element, and the list is
    never empty there because the new head was just inserted. *)
Definition update (self : t) : option t :=
  let direction' := next_direction self in
  match body self with
  | [] => None
  | head :: _ =>
      let new_head := Position.add head direction' in
      let new_head :=
        Position.mk (Position.x new_head mod GRID_WIDTH) (Position.y new_head) in
      let new_head :=
        Position.mk (Position.x new_head) (Position.y new_head mod GRID_HEIGHT) in
      let body' := new_head :: body self in
      if negb (grow_pending self)
      then Some (mk (removelast body') direction' (next_direction self) (grow_pending self))
      else Some (mk body' direction' (next_direction self) false)
  end.

(** [Snake.grow] *)
Definition grow (self : t) : t :=
  mk (body self) (direction self) (next_direction self) true.

(** [Snake.check_collision]: [head in self.body[1:]] compares with
    [Position.__eq__]. *)
Definition check_collision (self : t) : option bool :=
  match body self with
  | [] => None
  | head :: rest => Some (existsb (Position.eq head) rest)
  end.

(** [Snake.set_direction] *)
Definition set_direction (self : t) (direction0 : Direction) : t :=
  if negb (Direction_eqb direction0 (opposite (direction self)))
  then mk (body self) (direction self) direction0 (grow_pending self)
  else self.

End Snake.

(** ** Game controller *)

Inductive GameState : Type := MENU | PLAYING | GAME_OVER.

Definition GameState_eqb (a b : GameState) : bool :=
  match a, b with
  | MENU, MENU | PLAYING, PLAYING | GAME_OVER, GAME_OVER => true
  | _, _ => false
  end.

(** The keys and events that [handle_input] tells apart; every other key
    is [K_other] and every other event type is [OTHER]. *)
Inductive Key : Type := K_SPACE | K_UP | K_DOWN | K_LEFT | K_RIGHT | K_q | K_other.

Inductive Event : Type := QUIT | KEYDOWN (key : Key) | OTHER.

Module SnakeGame.

(** The fields that carry game logic; the screen, clock and fonts are
    only used for drawing. *)
Record t : Type := mk {
  state : GameState;
  snake : Snake.t;
  food : Food.t;
  score : Z;
  high_score : Z;
  running : bool
}.

(** [SnakeGame.__init__] *)
Definition init (r : Random.t) : t * Random.t :=
  let '(f, r') := Food.init r in
  (mk MENU Snake.init f 0 0 true, r').

(** [SnakeGame.start_game] *)
Definition start_game (self : t) (r : Random.t) : t * Random.t :=
  let '(f, r') := Food.init r in
  (mk PLAYING Snake.init f 0 (high_score self) (running self), r').

(** One iteration of the event loop of [handle_input]. *)
Definition handle_event (self : t) (r : Random.t) (event : Event) : t * Random.t :=
  match event with
  | QUIT =>
      (mk (state self) (snake self) (food self) (score self) (high_score self) false, r)
  | KEYDOWN key =>
      match state self with
      | MENU =>
          match key with
          | K_SPACE => start_game self r
          | _ => (self, r)
          end
      | PLAYING =>
          let turn d :=
            (mk (state self) (Snake.set_direction (snake self) d) (food self)
                (score self) (high_score self) (running self), r) in
          match key with
          | K_UP => turn UP
          | K_DOWN => turn DOWN
          | K_LEFT => turn LEFT
          | K_RIGHT => turn RIGHT
          | _ => (self, r)
          end
      | GAME_OVER =>
          match key with
          | K_SPACE => start_game self r
          | K_q =>
              (mk (state self) (snake self) (food self) (score self) (high_score self) false, r)
          | _ => (self, r)
          end
      end
  | OTHER => (self, r)
  end.

(** [SnakeGame.handle_input] over the events returned by one poll. *)
Fixpoint handle_input (self : t) (r : Random.t) (events : list Event) : t * Random.t :=
  match events with
  | [] => (self, r)
  | event :: rest =>
      let '(self', r') := handle_event self r event in
      handle_input self' r' rest
  end.

(** The three phases of [SnakeGame.update] after its guard. *)

(** [self.snake.update()] *)
Definition advance_snake (self : t) : option t :=
  match Snake.update (snake self) with
  | None => None
  | Some s' => Some (mk (state self) s' (food self) (score self) (high_score self) (running self))
  end.

(** The food test and its three effects. *)
Definition check_food (self : t) (r : Random.t) : option (t * Random.t) :=
  match Snake.body (snake self) with
  | [] => None
  | head :: _ =>
      if Position.eq head (Food.position (food self))
      then
        let s' := Snake.grow (snake self) in
        let '(f', r') := Food.respawn (food self) r in
        Some (mk (state self) s' f' (score self + 10) (high_score self) (running self), r')
      else Some (self, r)
  end.

(** The self-collision test and the end of the game. *)
Definition check_self (self : t) : option t :=
  match Snake.check_collision (snake self) with
  | None => None
  | Some true =>
      let high_score' :=
        if score self >? high_score self then score self else high_score self in
      Some (mk GAME_OVER (snake self) (food self) (score self) high_score' (running self))
  | Some false => Some self
  end.

(** [SnakeGame.update] *)
Definition update (self : t) (r : Random.t) : option (t * Random.t) :=
  if negb (GameState_eqb (state self) PLAYING) then Some (self, r)
  else
    match advance_snake self with
    | None => None
    | Some g1 =>
        match check_food g1 r with
        | None => None
        | Some (g2, r') =>
            match check_self g2 with
            | None => None
            | Some g3 => Some (g3, r')
            end
        end
    end.

End SnakeGame.

(** ** Sequences of operations *)

(** The mutating methods of a snake, as a client may call them. *)
Inductive SnakeOp : Type :=
| OpUpdate
| OpGrow
| OpSetDirection (d : Direction).

Definition snake_step (s : Snake.t) (op : SnakeOp) : option Snake.t :=
  match op with
  | OpUpdate => Snake.update s
  | OpGrow => Some (Snake.grow s)
  | OpSetDirection d => Some (Snake.set_direction s d)
  end.

Fixpoint snake_run (s : Snake.t) (ops : list SnakeOp) : option Snake.t :=
  match ops with
  | [] => Some s
  | op :: rest =>
      match snake_step s op with
      | None => None
      | Some s' => snake_run s' rest
      end
  end.

Definition is_update (op : SnakeOp) : bool :=
  match op with OpUpdate => true | _ => false end.

Definition is_grow (op : SnakeOp) : bool :=
  match op with OpGrow => true | _ => false end.

(** The direction requests of one tick, in the order they are made. *)
Definition set_directions (s : Snake.t) (ds : list Direction) : Snake.t :=
  fold_left Snake.set_direction ds s.

(** The mutating methods of the controller. *)
Inductive GameOp : Type :=
| DoHandleInput (events : list Event)
| DoStartGame
| DoUpdate.

Definition game_step (g : SnakeGame.t) (r : Random.t) (op : GameOp)
  : option (SnakeGame.t * Random.t) :=
  match op with
  | DoHandleInput events => Some (SnakeGame.handle_input g r events)
  | DoStartGame => Some (SnakeGame.start_game g r)
  | DoUpdate => SnakeGame.update g r
  end.

Fixpoint game_run (g : SnakeGame.t) (r : Random.t) (ops : list GameOp)
  : option (SnakeGame.t * Random.t) :=
  match ops with
  | [] => Some (g, r)
  | op :: rest =>
      match game_step g r op with
      | None => None
      | Some (g', r') => game_run g' r' rest
      end
  end.

(** ** Predicates used in the statements *)

(** Both assignments that follow the addition in [Snake.update]. *)
Definition wrap (p : Position.t) : Position.t :=
  Position.mk (Position.x p mod GRID_WIDTH) (Position.y p mod GRID_HEIGHT).

Definition in_grid (p : Position.t) : Prop :=
  0 <= Position.x p < GRID_WIDTH /\ 0 <= Position.y p < GRID_HEIGHT.

Definition body_in_grid (s : Snake.t) : Prop :=
  Forall in_grid (Snake.body s).

(** The reading of [position + direction] that wraps inside the addition. *)
Definition add_wrapping (p : Position.t) (d : Direction) : Position.t :=
  Position.mk ((Position.x p + fst (value d)) mod GRID_WIDTH)
              ((Position.y p + snd (value d)) mod GRID_HEIGHT).

(** The reading of the tick in which the body handed to the collision
    test is already one segment longer whenever food was eaten on that
    tick. *)
Definition collision_sees_growth (g : SnakeGame.t) (r : Random.t) : Prop :=
  forall g1 g2 r' h tl,
    SnakeGame.advance_snake g = Some g1 ->
    Snake.body (SnakeGame.snake g1) = h :: tl ->
    Position.eq h (Food.position (SnakeGame.food g1)) = true ->
    SnakeGame.check_food g1 r = Some (g2, r') ->
    length (Snake.body (SnakeGame.snake g2))
    = S (length (Snake.body (SnakeGame.snake g1))).

(** The result of a tick in the Playing state, written out. *)
Definition tick_result (g : SnakeGame.t) (r : Random.t) (s1 : Snake.t)
           (h1 : Position.t) (tl1 : list Position.t) : SnakeGame.t * Random.t :=
  let eaten := Position.eq h1 (Food.position (SnakeGame.food g)) in
  let s2 := if eaten then Snake.grow s1 else s1 in
  let fr := if eaten then Food.respawn (SnakeGame.food g) r else (SnakeGame.food g, r) in
  let sc := if eaten then SnakeGame.score g + 10 else SnakeGame.score g in
  let hit := existsb (Position.eq h1) tl1 in
  (SnakeGame.mk (if hit then GAME_OVER else PLAYING) s2 (fst fr) sc
                (if hit
                 then (if sc >? SnakeGame.high_score g then sc else SnakeGame.high_score g)
                 else SnakeGame.high_score g)
                (SnakeGame.running g),
   snd fr).

(** Concrete states used in examples. *)

Definition rng0 : Random.t := Random.mk (fun n => Z.of_nat n * 7 + 3) 0.

Definition snake3 : Snake.t :=
  Snake.mk [Position.mk 5 5; Position.mk 4 5; Position.mk 3 5] RIGHT RIGHT false.

Definition game3 : SnakeGame.t :=
  SnakeGame.mk PLAYING snake3 (Food.mk (Position.mk 6 5)) 0 0 true.

(** A two-segment body whose head is about to land on a cell that the
    growing body still occupies. *)
Definition game_loop : SnakeGame.t :=
  SnakeGame.mk PLAYING
    (Snake.mk [Position.mk 0 0; Position.mk 1 0] RIGHT RIGHT true)
    (Food.mk (Position.mk 9 9)) 30 20 true.

Definition game_menu : SnakeGame.t :=
  SnakeGame.mk MENU snake3 (Food.mk (Position.mk 6 5)) 40 70 true.

(** ** Drawing

    A surface is the list of the [pygame.draw.rect] calls made on it, in
    order; a call with width 0 fills the rectangle. *)

Definition RGB : Type := (Z * Z * Z)%type.

Module Color.

Definition BLACK : RGB := (0, 0, 0).
Definition GRAY : RGB := (128, 128, 128).

End Color.

Module Rect.

(** [pygame.Rect(left, top, width, height)] *)
Record t : Type := mk { left : Z; top : Z; width : Z; height : Z }.

End Rect.










(** ** The main loop

    [SnakeGame.run] polls the events once per iteration; [polls] lists what
    the successive polls return.  [draw] and [clock.tick] do not touch the
    fields of the game.  The loop has left its [while] in [Exited]; in
    [Polling] it is waiting for a poll beyond the ones given; [Raised] is
    an exception out of [update]. *)

Inductive Outcome : Type :=
| Exited (g : SnakeGame.t) (r : Random.t)
| Polling (g : SnakeGame.t) (r : Random.t)
| Raised.

Fixpoint run (self : SnakeGame.t) (r : Random.t) (polls : list (list Event))
  {struct polls} : Outcome :=
  if SnakeGame.running self then
    match polls with
    | [] => Polling self r
    | events :: rest =>
        let '(g1, r1) := SnakeGame.handle_input self r events in
        match SnakeGame.update g1 r1 with
        | None => Raised
        | Some (g2, r2) => run g2 r2 rest
        end
    end
  else Exited self r.

(** ** Shape of the body *)

(** [p] is the cell one step from [q] on the torus. *)
Definition neighbours (p q : Position.t) : Prop :=
  exists d : Direction, p = wrap (Position.add q d).

Fixpoint chained (l : list Position.t) : Prop :=
  match l with
  | p :: (q :: _) as rest => neighbours p q /\ chained rest
  | _ => True
  end.

Definition parity (p : Position.t) : Z := (Position.x p + Position.y p) mod 2.

(** What every sequence of operations keeps true of a snake. *)
Definition snake_wf (s : Snake.t) : Prop :=
  Snake.body s <> [] /\
  body_in_grid s /\
  Snake.next_direction s <> opposite (Snake.direction s) /\
  (forall h p rest,
      Snake.body s = h :: p :: rest -> h = wrap (Position.add p (Snake.direction s))) /\
  chained (Snake.body s) /\
  (forall h a b rest, Snake.body s = h :: a :: b :: rest -> h <> b).

(** Segments the snake has or is about to get. *)
Definition segments_due (s : Snake.t) : Z :=
  Z.of_nat (length (Snake.body s)) + (if Snake.grow_pending s then 1 else 0).

(** What every sequence of operations keeps true of a game. *)
Definition game_wf (g : SnakeGame.t) : Prop :=
  snake_wf (SnakeGame.snake g) /\
  in_grid (Food.position (SnakeGame.food g)) /\
  SnakeGame.score g = 10 * (segments_due (SnakeGame.snake g) - 1) /\
  0 <= SnakeGame.high_score g /\
  (SnakeGame.state g = MENU -> SnakeGame.high_score g = 0) /\
  (SnakeGame.state g = GAME_OVER ->
   Snake.check_collision (SnakeGame.snake g) = Some true /\
   SnakeGame.score g <= SnakeGame.high_score g).

(** The directions in [ds] that [set_direction] accepts while the heading
    is [cur]. *)
Definition accepted (cur : Direction) (ds : list Direction) : list Direction :=
  filter (fun d => negb (Direction_eqb d (opposite cur))) ds.

(** The direction an arrow key asks for in the Playing branch of
    [handle_input]. *)
Definition key_direction (key : Key) : option Direction :=
  match key with
  | K_UP => Some UP
  | K_DOWN => Some DOWN
  | K_LEFT => Some LEFT
  | K_RIGHT => Some RIGHT
  | _ => None
  end.

Fixpoint requested (events : list Event) : list Direction :=
  match events with
  | [] => []
  | KEYDOWN key :: rest =>
      match key_direction key with
      | Some d => d :: requested rest
      | None => requested rest
      end
  | _ :: rest => requested rest
  end.

Definition is_quit (e : Event) : bool :=
  match e with QUIT => true | _ => false end.

(** A generator whose raw draws are read off a list. *)
Definition rng_of (l : list Z) : Random.t := Random.mk (fun n => nth n l 0) 0.

(** A game played to its end: four foods in a row, then a turn back into
    the body. *)
Definition rng_square : Random.t :=
  rng_of [0; 0; 21; 15; 22; 15; 23; 15; 24; 15; 0; 0].

(** The same walk made by calling the snake directly. *)
Definition snake_ops_square : list SnakeOp :=
  [OpGrow; OpUpdate; OpGrow; OpUpdate; OpGrow; OpUpdate; OpGrow;
   OpSetDirection DOWN; OpUpdate; OpSetDirection LEFT; OpUpdate;
   OpSetDirection UP; OpUpdate].

Definition ops_square : list GameOp :=
  [DoHandleInput [KEYDOWN K_SPACE]; DoUpdate; DoUpdate; DoUpdate; DoUpdate;
   DoHandleInput [KEYDOWN K_DOWN]; DoUpdate;
   DoHandleInput [KEYDOWN K_LEFT]; DoUpdate;
   DoHandleInput [KEYDOWN K_UP]; DoUpdate].

(** ** Basic facts *)

Lemma GRID_WIDTH_val : GRID_WIDTH = 40.
Proof. reflexivity. Qed.

Lemma GRID_HEIGHT_val : GRID_HEIGHT = 30.
Proof. reflexivity. Qed.

Lemma Direction_eqb_eq (a b : Direction) : Direction_eqb a b = true <-> a = b.
Proof. destruct a, b; simpl; split; intro H; try reflexivity; discriminate H. Qed.

Lemma Direction_eqb_neq (a b : Direction) : Direction_eqb a b = false <-> a <> b.
Proof.
  destruct a, b; simpl; split; intro H;
    try reflexivity; try discriminate H; try (intro K; discriminate K);
    exfalso; apply H; reflexivity.
Qed.

Lemma opposite_irrefl (d : Direction) : d <> opposite d.
Proof. destruct d; discriminate. Qed.

Lemma Position_eq_spec (p q : Position.t) : Position.eq p q = true <-> p = q.
Proof.
  destruct p as [px py], q as [qx qy]; unfold Position.eq; simpl.
  rewrite andb_true_iff, !Z.eqb_eq. split.
  - intros [-> ->]; reflexivity.
  - intro H; injection H; auto.
Qed.

Lemma Position_eq_coords (p q : Position.t) :
  Position.eq p q = true <->
  Position.x p = Position.x q /\ Position.y p = Position.y q.
Proof. unfold Position.eq. rewrite andb_true_iff, !Z.eqb_eq. reflexivity. Qed.

Lemma Position_add_coords (p : Position.t) (d : Direction) :
  Position.add p d
  = Position.mk (Position.x p + fst (value d)) (Position.y p + snd (value d)).
Proof. destruct d; reflexivity. Qed.

Lemma wrap_in_grid (p : Position.t) : in_grid (wrap p).
Proof.
  unfold in_grid, wrap; simpl. split; apply Z.mod_pos_bound; reflexivity.
Qed.

Lemma randint_range (a b : Z) (r : Random.t) :
  a <= b -> a <= fst (Random.randint a b r) <= b.
Proof.
  intro Hab. unfold Random.randint; simpl.
  pose proof (Z.mod_pos_bound (Random.draws r (Random.cursor r)) (b - a + 1)).
  lia.
Qed.

Lemma generate_position_in_grid (r : Random.t) :
  in_grid (fst (Food._generate_position r)).
Proof.
  unfold Food._generate_position.
  destruct (Random.randint 0 (GRID_WIDTH - 1) r) as [px r1] eqn:Ex.
  destruct (Random.randint 0 (GRID_HEIGHT - 1) r1) as [py r2] eqn:Ey.
  pose proof (randint_range 0 (GRID_WIDTH - 1) r) as Hx.
  pose proof (randint_range 0 (GRID_HEIGHT - 1) r1) as Hy.
  rewrite Ex in Hx. rewrite Ey in Hy. cbn [fst] in Hx, Hy.
  rewrite GRID_WIDTH_val in Hx. rewrite GRID_HEIGHT_val in Hy.
  unfold in_grid; simpl. rewrite GRID_WIDTH_val, GRID_HEIGHT_val. lia.
Qed.

(** ** Lists: what [pop()] does after an [insert(0, _)] *)

Section ListFacts.

Variable A : Type.

Lemma removelast_cons_length (a : A) (l : list A) :
  length (removelast (a :: l)) = length l.
Proof.
  revert a. induction l as [| b l IH]; intro a.
  - reflexivity.
  - change (removelast (a :: b :: l)) with (a :: removelast (b :: l)).
    change (S (length (removelast (b :: l))) = S (length l)).
    f_equal. apply IH.
Qed.

Lemma removelast_cons_cons (a b : A) (l : list A) :
  removelast (a :: b :: l) = a :: removelast (b :: l).
Proof. reflexivity. Qed.

Lemma Forall_removelast (P : A -> Prop) (l : list A) :
  Forall P l -> Forall P (removelast l).
Proof.
  induction 1 as [| a l Ha Hl IH].
  - constructor.
  - destruct l as [| b l'].
    + constructor.
    + rewrite removelast_cons_cons. constructor; assumption.
Qed.

End ListFacts.

Arguments removelast_cons_length {A}.
Arguments removelast_cons_cons {A}.
Arguments Forall_removelast {A}.

(** ** Snake: one step *)

Lemma Snake_update_cons (s : Snake.t) (h : Position.t) (tl : list Position.t) :
  Snake.body s = h :: tl ->
  Snake.update s =
  Some (Snake.mk
          (if Snake.grow_pending s
           then wrap (Position.add h (Snake.next_direction s)) :: h :: tl
           else removelast (wrap (Position.add h (Snake.next_direction s)) :: h :: tl))
          (Snake.next_direction s) (Snake.next_direction s) false).
Proof.
  intro Hb. unfold Snake.update. rewrite Hb.
  destruct (Snake.grow_pending s); reflexivity.
Qed.

Lemma Snake_update_inv (s s' : Snake.t) (h : Position.t) (tl : list Position.t) :
  Snake.body s = h :: tl ->
  Snake.update s = Some s' ->
  s' = Snake.mk
         (if Snake.grow_pending s
          then wrap (Position.add h (Snake.next_direction s)) :: h :: tl
          else removelast (wrap (Position.add h (Snake.next_direction s)) :: h :: tl))
         (Snake.next_direction s) (Snake.next_direction s) false.
Proof.
  intros Hb Hu. rewrite (Snake_update_cons s h tl Hb) in Hu. congruence.
Qed.

Lemma Snake_update_empty (s : Snake.t) :
  Snake.body s = [] -> Snake.update s = None.
Proof. intro Hb. unfold Snake.update. rewrite Hb. reflexivity. Qed.

Lemma Snake_update_total (s : Snake.t) :
  Snake.body s <> [] -> exists s', Snake.update s = Some s'.
Proof.
  intro Hne. destruct (Snake.body s) as [| h tl] eqn:Hb.
  - contradiction Hne; reflexivity.
  - rewrite (Snake_update_cons s h tl Hb). eexists; reflexivity.
Qed.

Lemma Snake_update_head (s s' : Snake.t) (h : Position.t) (tl : list Position.t) :
  Snake.body s = h :: tl ->
  Snake.update s = Some s' ->
  exists tl', Snake.body s' = wrap (Position.add h (Snake.next_direction s)) :: tl'.
Proof.
  intros Hb Hu. rewrite (Snake_update_inv s s' h tl Hb Hu). cbn [Snake.body].
  destruct (Snake.grow_pending s).
  - eexists; reflexivity.
  - rewrite removelast_cons_cons. eexists; reflexivity.
Qed.

Lemma Snake_update_fields (s s' : Snake.t) :
  Snake.update s = Some s' ->
  Snake.direction s' = Snake.next_direction s /\
  Snake.next_direction s' = Snake.next_direction s /\
  Snake.grow_pending s' = false.
Proof.
  intro Hu. destruct (Snake.body s) as [| h tl] eqn:Hb.
  - rewrite (Snake_update_empty s Hb) in Hu. discriminate Hu.
  - rewrite (Snake_update_inv s s' h tl Hb Hu). simpl. auto.
Qed.

Lemma Snake_update_length (s s' : Snake.t) :
  Snake.update s = Some s' ->
  length (Snake.body s') =
  if Snake.grow_pending s then S (length (Snake.body s)) else length (Snake.body s).
Proof.
  intro Hu. destruct (Snake.body s) as [| h tl] eqn:Hb.
  - rewrite (Snake_update_empty s Hb) in Hu. discriminate Hu.
  - rewrite (Snake_update_inv s s' h tl Hb Hu).
    cbn [Snake.body]. destruct (Snake.grow_pending s).
    + reflexivity.
    + apply removelast_cons_length.
Qed.

Lemma Snake_update_nonempty (s s' : Snake.t) :
  Snake.update s = Some s' -> Snake.body s' <> [].
Proof.
  intro Hu. destruct (Snake.body s) as [| h tl] eqn:Hb.
  - rewrite (Snake_update_empty s Hb) in Hu. discriminate Hu.
  - destruct (Snake_update_head s s' h tl Hb Hu) as [tl' ->]. discriminate.
Qed.

Lemma Snake_update_in_grid (s s' : Snake.t) :
  body_in_grid s -> Snake.update s = Some s' -> body_in_grid s'.
Proof.
  unfold body_in_grid. intros Hg Hu.
  destruct (Snake.body s) as [| h tl] eqn:Hb.
  - rewrite (Snake_update_empty s Hb) in Hu. discriminate Hu.
  - rewrite (Snake_update_inv s s' h tl Hb Hu).
    cbn [Snake.body].
    assert (Hall : Forall in_grid (wrap (Position.add h (Snake.next_direction s)) :: h :: tl)).
    { constructor; [apply wrap_in_grid | exact Hg]. }
    destruct (Snake.grow_pending s).
    + exact Hall.
    + apply Forall_removelast. exact Hall.
Qed.

Lemma set_direction_cases (s : Snake.t) (d : Direction) :
  (d <> opposite (Snake.direction s) /\
   Snake.set_direction s d =
   Snake.mk (Snake.body s) (Snake.direction s) d (Snake.grow_pending s))
  \/
  (d = opposite (Snake.direction s) /\ Snake.set_direction s d = s).
Proof.
  unfold Snake.set_direction.
  destruct (Direction_eqb d (opposite (Snake.direction s))) eqn:E; simpl.
  - right. split; [apply Direction_eqb_eq; exact E | reflexivity].
  - left. split; [apply Direction_eqb_neq; exact E | reflexivity].
Qed.

Lemma set_direction_frame (s : Snake.t) (d : Direction) :
  Snake.body (Snake.set_direction s d) = Snake.body s /\
  Snake.direction (Snake.set_direction s d) = Snake.direction s /\
  Snake.grow_pending (Snake.set_direction s d) = Snake.grow_pending s.
Proof.
  destruct (set_direction_cases s d) as [[_ ->] | [_ ->]]; simpl; auto.
Qed.

Lemma set_direction_guard (s : Snake.t) (d : Direction) :
  Snake.next_direction s <> opposite (Snake.direction s) ->
  Snake.next_direction (Snake.set_direction s d) <> opposite (Snake.direction s).
Proof.
  intro Hn. destruct (set_direction_cases s d) as [[Hd ->] | [_ ->]]; simpl; assumption.
Qed.

Lemma set_directions_frame (ds : list Direction) (s : Snake.t) :
  Snake.body (set_directions s ds) = Snake.body s /\
  Snake.direction (set_directions s ds) = Snake.direction s /\
  Snake.grow_pending (set_directions s ds) = Snake.grow_pending s.
Proof.
  revert s. induction ds as [| d ds IH]; intro s.
  - simpl; auto.
  - unfold set_directions in *. simpl fold_left.
    destruct (IH (Snake.set_direction s d)) as (Hb & Hd & Hg).
    destruct (set_direction_frame s d) as (Hb' & Hd' & Hg').
    rewrite Hb, Hd, Hg. auto.
Qed.

Lemma set_directions_guard (ds : list Direction) (s : Snake.t) :
  Snake.next_direction s <> opposite (Snake.direction s) ->
  Snake.next_direction (set_directions s ds) <> opposite (Snake.direction s).
Proof.
  revert s. induction ds as [| d ds IH]; intros s Hn.
  - exact Hn.
  - unfold set_directions in *. simpl fold_left.
    destruct (set_direction_frame s d) as (_ & Hd & _).
    rewrite <- Hd. apply IH. rewrite Hd. apply set_direction_guard. exact Hn.
Qed.

(** ** Snake: calls between two updates *)

Lemma snake_run_between (ops : list SnakeOp) (s : Snake.t) :
  existsb is_update ops = false ->
  exists s',
    snake_run s ops = Some s' /\
    Snake.body s' = Snake.body s /\
    Snake.direction s' = Snake.direction s /\
    Snake.grow_pending s' = Snake.grow_pending s || existsb is_grow ops.
Proof.
  revert s. induction ops as [| op ops IH]; intros s Hno.
  - exists s. simpl. rewrite orb_false_r. auto.
  - simpl in Hno. apply orb_false_iff in Hno. destruct Hno as [Hop Hrest].
    destruct op as [| | d]; simpl in Hop; try discriminate Hop.
    + destruct (IH (Snake.grow s) Hrest) as (s' & Hr & Hb & Hd & Hg).
      exists s'. simpl. rewrite Hr, Hb, Hd, Hg. simpl.
      rewrite orb_true_r. auto.
    + destruct (IH (Snake.set_direction s d) Hrest) as (s' & Hr & Hb & Hd & Hg).
      destruct (set_direction_frame s d) as (Hb' & Hd' & Hg').
      exists s'. simpl. rewrite Hr, Hb, Hd, Hg, Hb', Hd', Hg'. auto.
Qed.

Lemma snake_step_preserves (s s' : Snake.t) (op : SnakeOp) :
  Snake.body s <> [] -> body_in_grid s ->
  snake_step s op = Some s' ->
  Snake.body s' <> [] /\ body_in_grid s'.
Proof.
  intros Hne Hg Hs. destruct op as [| | d]; simpl in Hs.
  - split; [eapply Snake_update_nonempty | eapply Snake_update_in_grid]; eassumption.
  - injection Hs as <-. split; assumption.
  - injection Hs as <-. unfold body_in_grid.
    destruct (set_direction_frame s d) as (-> & _ & _). split; assumption.
Qed.

Lemma snake_step_total (s : Snake.t) (op : SnakeOp) :
  Snake.body s <> [] -> exists s', snake_step s op = Some s'.
Proof.
  intro Hne. destruct op as [| | d]; simpl.
  - apply Snake_update_total; exact Hne.
  - eexists; reflexivity.
  - eexists; reflexivity.
Qed.

Lemma snake_run_preserves (ops : list SnakeOp) (s : Snake.t) :
  Snake.body s <> [] -> body_in_grid s ->
  exists s', snake_run s ops = Some s' /\ Snake.body s' <> [] /\ body_in_grid s'.
Proof.
  revert s. induction ops as [| op ops IH]; intros s Hne Hg.
  - exists s. simpl. auto.
  - destruct (snake_step_total s op Hne) as [s1 H1].
    destruct (snake_step_preserves s s1 op Hne Hg H1) as [Hne1 Hg1].
    destruct (IH s1 Hne1 Hg1) as (s' & Hr & Hne' & Hg').
    exists s'. simpl. rewrite H1. auto.
Qed.

Lemma Snake_init_in_grid : Snake.body Snake.init <> [] /\ body_in_grid Snake.init.
Proof.
  split.
  - discriminate.
  - unfold body_in_grid, Snake.init. simpl Snake.body.
    constructor; [| constructor].
    unfold in_grid; simpl. rewrite GRID_WIDTH_val, GRID_HEIGHT_val.
    change (40 / 2) with 20. change (30 / 2) with 15. lia.
Qed.

Lemma check_collision_In (s : Snake.t) (h : Position.t) (tl : list Position.t) :
  Snake.body s = h :: tl ->
  exists b, Snake.check_collision s = Some b /\ (b = true <-> In h tl).
Proof.
  intro Hb. unfold Snake.check_collision. rewrite Hb.
  eexists; split; [reflexivity |].
  rewrite existsb_exists. split.
  - intros (p & Hin & Heq). apply Position_eq_spec in Heq. subst p. exact Hin.
  - intro Hin. exists h. split; [exact Hin | apply Position_eq_spec; reflexivity].
Qed.

(** ** Controller: one tick *)

Lemma SnakeGame_update_playing (g : SnakeGame.t) (r : Random.t) (s1 : Snake.t)
      (h1 : Position.t) (tl1 : list Position.t) :
  SnakeGame.state g = PLAYING ->
  Snake.update (SnakeGame.snake g) = Some s1 ->
  Snake.body s1 = h1 :: tl1 ->
  SnakeGame.update g r = Some (tick_result g r s1 h1 tl1).
Proof.
  intros Hst Hu Hb. destruct g as [st sn fd sc hs rn]. simpl in Hst, Hu. subst st.
  unfold SnakeGame.update, SnakeGame.advance_snake, tick_result.
  cbn [SnakeGame.state SnakeGame.snake SnakeGame.food SnakeGame.score
       SnakeGame.high_score SnakeGame.running GameState_eqb negb].
  rewrite Hu. unfold SnakeGame.check_food.
  cbn [SnakeGame.state SnakeGame.snake SnakeGame.food SnakeGame.score
       SnakeGame.high_score SnakeGame.running].
  rewrite Hb.
  destruct (Position.eq h1 (Food.position fd)).
  - destruct (Food.respawn fd r) as [f' r'].
    unfold SnakeGame.check_self, Snake.check_collision, Snake.grow.
    cbn [SnakeGame.state SnakeGame.snake SnakeGame.food SnakeGame.score
         SnakeGame.high_score SnakeGame.running Snake.body fst snd].
    rewrite Hb. destruct (existsb (Position.eq h1) tl1); reflexivity.
  - unfold SnakeGame.check_self, Snake.check_collision.
    cbn [SnakeGame.state SnakeGame.snake SnakeGame.food SnakeGame.score
         SnakeGame.high_score SnakeGame.running Snake.body fst snd].
    rewrite Hb. destruct (existsb (Position.eq h1) tl1); reflexivity.
Qed.

Lemma SnakeGame_update_idle (g : SnakeGame.t) (r : Random.t) :
  SnakeGame.state g <> PLAYING -> SnakeGame.update g r = Some (g, r).
Proof.
  intro Hst. unfold SnakeGame.update.
  destruct (SnakeGame.state g); try reflexivity.
  contradiction Hst; reflexivity.
Qed.

Lemma tick_result_high_score (g : SnakeGame.t) (r : Random.t) (s1 : Snake.t)
      (h1 : Position.t) (tl1 : list Position.t) :
  SnakeGame.high_score g <= SnakeGame.high_score (fst (tick_result g r s1 h1 tl1)).
Proof.
  unfold tick_result. cbn [fst SnakeGame.high_score].
  destruct (existsb (Position.eq h1) tl1); [| lia].
  match goal with |- context [?a >? ?b] => destruct (Z.gtb_spec a b) end; lia.
Qed.

Lemma tick_result_body (g : SnakeGame.t) (r : Random.t) (s1 : Snake.t)
      (h1 : Position.t) (tl1 : list Position.t) :
  Snake.body (SnakeGame.snake (fst (tick_result g r s1 h1 tl1))) = Snake.body s1.
Proof.
  unfold tick_result. cbn [fst SnakeGame.snake].
  destruct (Position.eq h1 (Food.position (SnakeGame.food g))); reflexivity.
Qed.

(** The three phases of a tick, one at a time. *)

Lemma advance_snake_some (g : SnakeGame.t) (s1 : Snake.t) :
  Snake.update (SnakeGame.snake g) = Some s1 ->
  SnakeGame.advance_snake g =
  Some (SnakeGame.mk (SnakeGame.state g) s1 (SnakeGame.food g) (SnakeGame.score g)
                     (SnakeGame.high_score g) (SnakeGame.running g)).
Proof. intro Hu. unfold SnakeGame.advance_snake. rewrite Hu. reflexivity. Qed.

Lemma check_food_eaten (g : SnakeGame.t) (r : Random.t)
      (h : Position.t) (tl : list Position.t) :
  Snake.body (SnakeGame.snake g) = h :: tl ->
  Position.eq h (Food.position (SnakeGame.food g)) = true ->
  SnakeGame.check_food g r =
  Some (SnakeGame.mk (SnakeGame.state g) (Snake.grow (SnakeGame.snake g))
                     (fst (Food.respawn (SnakeGame.food g) r))
                     (SnakeGame.score g + 10)
                     (SnakeGame.high_score g) (SnakeGame.running g),
        snd (Food.respawn (SnakeGame.food g) r)).
Proof.
  intros Hb He. unfold SnakeGame.check_food. rewrite Hb, He.
  destruct (Food.respawn (SnakeGame.food g) r). reflexivity.
Qed.

Lemma check_food_missed (g : SnakeGame.t) (r : Random.t)
      (h : Position.t) (tl : list Position.t) :
  Snake.body (SnakeGame.snake g) = h :: tl ->
  Position.eq h (Food.position (SnakeGame.food g)) = false ->
  SnakeGame.check_food g r = Some (g, r).
Proof.
  intros Hb He. unfold SnakeGame.check_food. rewrite Hb, He. reflexivity.
Qed.

Lemma check_self_hit (g : SnakeGame.t) :
  Snake.check_collision (SnakeGame.snake g) = Some true ->
  SnakeGame.check_self g =
  Some (SnakeGame.mk GAME_OVER (SnakeGame.snake g) (SnakeGame.food g) (SnakeGame.score g)
                     (Z.max (SnakeGame.high_score g) (SnakeGame.score g))
                     (SnakeGame.running g)).
Proof.
  intro Hc. unfold SnakeGame.check_self. rewrite Hc.
  destruct (Z.gtb_spec (SnakeGame.score g) (SnakeGame.high_score g)).
  - rewrite Z.max_r by lia. reflexivity.
  - rewrite Z.max_l by lia. reflexivity.
Qed.

Lemma check_self_clear (g : SnakeGame.t) :
  Snake.check_collision (SnakeGame.snake g) = Some false ->
  SnakeGame.check_self g = Some g.
Proof. intro Hc. unfold SnakeGame.check_self. rewrite Hc. reflexivity. Qed.

Lemma SnakeGame_update_phases (g g1 g2 g3 : SnakeGame.t) (r r2 : Random.t) :
  SnakeGame.state g = PLAYING ->
  SnakeGame.advance_snake g = Some g1 ->
  SnakeGame.check_food g1 r = Some (g2, r2) ->
  SnakeGame.check_self g2 = Some g3 ->
  SnakeGame.update g r = Some (g3, r2).
Proof.
  intros Hst H1 H2 H3. unfold SnakeGame.update.
  rewrite Hst, H1, H2, H3. reflexivity.
Qed.

(** ** Controller: input and restart *)

Lemma start_game_fields (g : SnakeGame.t) (r : Random.t) :
  SnakeGame.start_game g r =
  (SnakeGame.mk PLAYING Snake.init (Food.mk (fst (Food._generate_position r))) 0
                (SnakeGame.high_score g) (SnakeGame.running g),
   snd (Food._generate_position r)).
Proof.
  unfold SnakeGame.start_game, Food.init.
  destruct (Food._generate_position r) as [p r']. reflexivity.
Qed.

Lemma Food_init_fields (r : Random.t) :
  Food.init r
  = (Food.mk (fst (Food._generate_position r)), snd (Food._generate_position r)).
Proof. unfold Food.init. destruct (Food._generate_position r). reflexivity. Qed.

Lemma handle_event_keeps (g : SnakeGame.t) (r : Random.t) (e : Event) :
  Snake.body (SnakeGame.snake g) <> [] ->
  SnakeGame.high_score (fst (SnakeGame.handle_event g r e)) = SnakeGame.high_score g /\
  Snake.body (SnakeGame.snake (fst (SnakeGame.handle_event g r e))) <> [].
Proof.
  intro Hne.
  assert (Hturn : forall d, Snake.body (Snake.set_direction (SnakeGame.snake g) d) <> []).
  { intro d. destruct (set_direction_frame (SnakeGame.snake g) d) as (-> & _ & _). exact Hne. }
  destruct e as [| key |]; unfold SnakeGame.handle_event.
  - simpl. auto.
  - destruct (SnakeGame.state g); destruct key;
      rewrite ?start_game_fields; cbn [fst SnakeGame.high_score SnakeGame.snake];
      (split; [reflexivity | first [exact Hne | apply Hturn | discriminate]]).
  - simpl. auto.
Qed.

Lemma handle_input_keeps (events : list Event) (g : SnakeGame.t) (r : Random.t) :
  Snake.body (SnakeGame.snake g) <> [] ->
  SnakeGame.high_score (fst (SnakeGame.handle_input g r events)) = SnakeGame.high_score g /\
  Snake.body (SnakeGame.snake (fst (SnakeGame.handle_input g r events))) <> [].
Proof.
  revert g r. induction events as [| e events IH]; intros g r Hne.
  - simpl. auto.
  - simpl. destruct (SnakeGame.handle_event g r e) as [g1 r1] eqn:He.
    destruct (handle_event_keeps g r e Hne) as [Hh Hb].
    rewrite He in Hh, Hb. cbn [fst] in Hh, Hb.
    destruct (IH g1 r1 Hb) as [Hh' Hb']. rewrite Hh' , Hh. auto.
Qed.

Lemma game_step_keeps (g : SnakeGame.t) (r : Random.t) (op : GameOp) :
  Snake.body (SnakeGame.snake g) <> [] ->
  exists g' r',
    game_step g r op = Some (g', r') /\
    SnakeGame.high_score g <= SnakeGame.high_score g' /\
    Snake.body (SnakeGame.snake g') <> [].
Proof.
  intro Hne. destruct op as [events | |]; simpl.
  - destruct (handle_input_keeps events g r Hne) as [Hh Hb].
    destruct (SnakeGame.handle_input g r events) as [g' r'].
    exists g', r'. cbn [fst] in Hh, Hb. split; [reflexivity | split; [lia | exact Hb]].
  - rewrite start_game_fields. do 2 eexists. split; [reflexivity |].
    cbn [SnakeGame.high_score SnakeGame.snake]. split; [lia | discriminate].
  - destruct (SnakeGame.state g) eqn:Hst.
    + rewrite SnakeGame_update_idle by (rewrite Hst; discriminate).
      exists g, r. split; [reflexivity | split; [lia | exact Hne]].
    + destruct (Snake_update_total _ Hne) as [s1 Hu].
      destruct (Snake.body s1) as [| h1 tl1] eqn:Hb1.
      { exfalso. exact (Snake_update_nonempty _ _ Hu Hb1). }
      rewrite (SnakeGame_update_playing g r s1 h1 tl1 Hst Hu Hb1).
      pose proof (tick_result_high_score g r s1 h1 tl1) as Hh.
      pose proof (tick_result_body g r s1 h1 tl1) as Hb.
      destruct (tick_result g r s1 h1 tl1) as [g' r'].
      exists g', r'. cbn [fst] in Hh, Hb.
      split; [reflexivity | split; [exact Hh |]].
      rewrite Hb, Hb1. discriminate.
    + rewrite SnakeGame_update_idle by (rewrite Hst; discriminate).
      exists g, r. split; [reflexivity | split; [lia | exact Hne]].
Qed.

Lemma game_run_keeps (ops : list GameOp) (g : SnakeGame.t) (r : Random.t) :
  Snake.body (SnakeGame.snake g) <> [] ->
  exists g' r',
    game_run g r ops = Some (g', r') /\
    SnakeGame.high_score g <= SnakeGame.high_score g' /\
    Snake.body (SnakeGame.snake g') <> [].
Proof.
  revert g r. induction ops as [| op ops IH]; intros g r Hne.
  - exists g, r. simpl. split; [reflexivity | split; [lia | exact Hne]].
  - destruct (game_step_keeps g r op Hne) as (g1 & r1 & H1 & Hh1 & Hb1).
    destruct (IH g1 r1 Hb1) as (g' & r' & Hr & Hh & Hb).
    exists g', r'. simpl. rewrite H1. split; [exact Hr | split; [lia | exact Hb]].
Qed.

(** * The specification's claims *)

(** ** Position and direction *)

(** C2, as stated, fails: at the rightmost column [Position.add] returns
    the column 40, which is outside the grid, where the wrapping reading
    gives column 0. *)
Lemma Position_add_does_not_wrap :
  Position.add (Position.mk 39 5) RIGHT = Position.mk 40 5 /\
  add_wrapping (Position.mk 39 5) RIGHT = Position.mk 0 5 /\
  Position.add (Position.mk 39 5) RIGHT <> add_wrapping (Position.mk 39 5) RIGHT /\
  ~ in_grid (Position.add (Position.mk 39 5) RIGHT).
Proof.
  split; [reflexivity |]. split; [reflexivity |]. split.
  - intro H. discriminate H.
  - unfold in_grid. simpl. rewrite GRID_WIDTH_val. lia.
Qed.

(** C2, amended: [p + d] adds the unit delta of [d] to [p] and does not
    wrap; the wrap of each axis modulo the grid dimension is done by
    [Snake.update] on the sum, so the head it prepends is the in-grid
    toroidal position. *)
Theorem Position_add_plain_update_wraps :
  forall (p : Position.t) (d : Direction),
    Position.add p d
    = Position.mk (Position.x p + fst (value d)) (Position.y p + snd (value d)) /\
    forall (tl : list Position.t) (cur : Direction) (gp : bool),
    exists s' tl',
      Snake.update (Snake.mk (p :: tl) cur d gp) = Some s' /\
      Snake.body s' = add_wrapping p d :: tl' /\
      add_wrapping p d = wrap (Position.add p d) /\
      in_grid (add_wrapping p d).
Proof.
  intros p d. split; [apply Position_add_coords |].
  intros tl cur gp.
  assert (Hw : add_wrapping p d = wrap (Position.add p d)).
  { rewrite Position_add_coords. reflexivity. }
  destruct (Snake_update_total (Snake.mk (p :: tl) cur d gp)) as [s' Hu];
    [discriminate |].
  destruct (Snake_update_head (Snake.mk (p :: tl) cur d gp) s' p tl eq_refl Hu) as [tl' Hb].
  exists s', tl'. cbn [Snake.next_direction] in Hb.
  split; [exact Hu |]. split; [rewrite Hw; exact Hb |].
  split; [exact Hw |]. rewrite Hw. apply wrap_in_grid.
Qed.

(** ** Snake *)

(** C3: on a non-empty body [update] succeeds and clears the growth flag;
    the length is unchanged when no growth is pending and one more when
    it is.  Counted from the state an update leaves (flag clear), the
    calls made before the next update add one segment exactly when
    [grow] is among them, and the update after that adds none. *)
Theorem update_length_and_growth :
  forall s : Snake.t,
    Snake.body s <> [] ->
    (exists s1,
        Snake.update s = Some s1 /\
        Snake.grow_pending s1 = false /\
        (Snake.grow_pending s = false ->
         length (Snake.body s1) = length (Snake.body s)) /\
        (Snake.grow_pending s = true ->
         length (Snake.body s1) = S (length (Snake.body s)))) /\
    (exists s1 s2,
        Snake.update (Snake.grow s) = Some s1 /\
        length (Snake.body s1) = S (length (Snake.body s)) /\
        Snake.grow_pending s1 = false /\
        Snake.update s1 = Some s2 /\
        length (Snake.body s2) = length (Snake.body s1)) /\
    (forall between : list SnakeOp,
        Snake.grow_pending s = false ->
        existsb is_update between = false ->
        exists s1 s2 s3,
          snake_run s between = Some s1 /\
          Snake.update s1 = Some s2 /\
          length (Snake.body s2) =
          (if existsb is_grow between
           then S (length (Snake.body s)) else length (Snake.body s)) /\
          Snake.grow_pending s2 = false /\
          Snake.update s2 = Some s3 /\
          length (Snake.body s3) = length (Snake.body s2)).
Proof.
  intros s Hne.
  assert (Hstep : forall a, Snake.body a <> [] ->
            exists a', Snake.update a = Some a' /\
                       Snake.body a' <> [] /\
                       Snake.grow_pending a' = false /\
                       length (Snake.body a') =
                       if Snake.grow_pending a
                       then S (length (Snake.body a)) else length (Snake.body a)).
  { intros a Ha. destruct (Snake_update_total a Ha) as [a' Hu]. exists a'.
    split; [exact Hu |]. split; [exact (Snake_update_nonempty _ _ Hu) |].
    split; [apply (Snake_update_fields _ _ Hu) | exact (Snake_update_length _ _ Hu)]. }
  split; [| split].
  - destruct (Hstep s Hne) as (s1 & Hu & _ & Hg & Hl). exists s1.
    split; [exact Hu |]. split; [exact Hg |].
    split; intro Hp; rewrite Hp in Hl; exact Hl.
  - destruct (Hstep (Snake.grow s) Hne) as (s1 & Hu1 & Hne1 & Hg1 & Hl1).
    destruct (Hstep s1 Hne1) as (s2 & Hu2 & _ & _ & Hl2).
    exists s1, s2. rewrite Hg1 in Hl2. simpl in Hl1. auto.
  - intros between Hflag Hno.
    destruct (snake_run_between between s Hno) as (s1 & Hr & Hb & _ & Hg).
    assert (Hne1 : Snake.body s1 <> []) by (rewrite Hb; exact Hne).
    destruct (Hstep s1 Hne1) as (s2 & Hu2 & Hne2 & Hg2 & Hl2).
    destruct (Hstep s2 Hne2) as (s3 & Hu3 & _ & _ & Hl3).
    exists s1, s2, s3. rewrite Hg2 in Hl3.
    rewrite Hg, Hflag, Hb in Hl2. simpl in Hl2. auto 7.
Qed.

Lemma update_length_and_growth_witness :
  Snake.body snake3 <> [] /\
  exists s1 s2,
    Snake.update (Snake.grow snake3) = Some s1 /\
    length (Snake.body s1) = S (length (Snake.body snake3)) /\
    Snake.grow_pending s1 = false /\
    Snake.update s1 = Some s2 /\
    length (Snake.body s2) = length (Snake.body s1).
Proof.
  assert (H : Snake.body snake3 <> []) by discriminate.
  split; [exact H | exact (proj1 (proj2 (update_length_and_growth snake3 H)))].
Defined.

(** C4: [set_direction d] stores [d] as the next direction exactly when
    [d] is not the opposite of the current heading, and otherwise leaves
    the snake as it was; after an accepted request the next [update]
    heads in direction [d]. *)
Theorem set_direction_guard_and_commit :
  forall (s : Snake.t) (d : Direction),
    (d <> opposite (Snake.direction s) ->
     Snake.set_direction s d =
     Snake.mk (Snake.body s) (Snake.direction s) d (Snake.grow_pending s)) /\
    (d = opposite (Snake.direction s) -> Snake.set_direction s d = s) /\
    (d <> opposite (Snake.direction s) ->
     Snake.body s <> [] ->
     exists s', Snake.update (Snake.set_direction s d) = Some s' /\
                Snake.direction s' = d).
Proof.
  intros s d. split; [| split].
  - intro Hd. destruct (set_direction_cases s d) as [[_ H] | [H _]];
      [exact H | contradiction].
  - intro Hd. destruct (set_direction_cases s d) as [[H _] | [_ H]];
      [contradiction | exact H].
  - intros Hd Hne.
    destruct (set_direction_cases s d) as [[_ H] | [H _]]; [| contradiction].
    rewrite H.
    destruct (Snake_update_total
                (Snake.mk (Snake.body s) (Snake.direction s) d (Snake.grow_pending s)) Hne)
      as [s' Hu].
    exists s'. split; [exact Hu |].
    apply (Snake_update_fields _ _ Hu).
Qed.

Lemma set_direction_guard_and_commit_witness :
  (UP <> opposite (Snake.direction snake3) /\ Snake.body snake3 <> []) /\
  exists s', Snake.update (Snake.set_direction snake3 UP) = Some s' /\
             Snake.direction s' = UP.
Proof.
  assert (Hd : UP <> opposite (Snake.direction snake3)) by discriminate.
  assert (Hb : Snake.body snake3 <> []) by discriminate.
  split; [split; assumption |].
  exact (proj2 (proj2 (set_direction_guard_and_commit snake3 UP)) Hd Hb).
Defined.

(** C5: on a non-empty body [check_collision] returns, and its answer is
    true exactly when some segment other than the head has the head's
    coordinates. *)
Theorem check_collision_iff_head_duplicated :
  forall (s : Snake.t) (h : Position.t) (tl : list Position.t),
    Snake.body s = h :: tl ->
    exists b,
      Snake.check_collision s = Some b /\
      (b = true <->
       exists (i : nat) (p : Position.t),
         nth_error (Snake.body s) (S i) = Some p /\
         Position.x p = Position.x h /\ Position.y p = Position.y h).
Proof.
  intros s h tl Hb.
  destruct (check_collision_In s h tl Hb) as (b & Hc & Hiff).
  exists b. split; [exact Hc |]. rewrite Hiff, Hb. split.
  - intro Hin. apply In_nth_error in Hin. destruct Hin as [i Hi].
    exists i, h. simpl. auto.
  - intros (i & p & Hn & Hx & Hy). simpl in Hn.
    apply nth_error_In in Hn.
    assert (p = h) as <-.
    { apply Position_eq_spec. apply Position_eq_coords. auto. }
    exact Hn.
Qed.

Lemma check_collision_iff_head_duplicated_witness :
  Snake.check_collision
    (Snake.mk [Position.mk 1 1; Position.mk 2 1; Position.mk 1 1] RIGHT RIGHT false)
  = Some true.
Proof.
  destruct (check_collision_iff_head_duplicated
              (Snake.mk [Position.mk 1 1; Position.mk 2 1; Position.mk 1 1]
                        RIGHT RIGHT false)
              (Position.mk 1 1) [Position.mk 2 1; Position.mk 1 1] eq_refl)
    as (b & Hc & Hiff).
  rewrite Hc. f_equal. apply Hiff.
  exists 1%nat, (Position.mk 1 1). simpl. auto.
Defined.

(** C6: from a non-empty in-grid body, [update] puts the wrapped sum of
    the old head and the committed direction at the head and keeps every
    segment in the grid; each snake operation keeps the body in the grid,
    and so does every sequence of operations run from the initial snake,
    all of which return. *)
Theorem update_head_wrapped_and_in_grid :
  (forall (s : Snake.t) (h : Position.t) (tl : list Position.t),
      Snake.body s = h :: tl ->
      body_in_grid s ->
      exists s' tl',
        Snake.update s = Some s' /\
        Snake.direction s' = Snake.next_direction s /\
        Snake.body s' = wrap (Position.add h (Snake.direction s')) :: tl' /\
        body_in_grid s') /\
  (forall (s s' : Snake.t) (op : SnakeOp),
      body_in_grid s -> snake_step s op = Some s' -> body_in_grid s') /\
  (forall ops : list SnakeOp,
      body_in_grid Snake.init /\
      exists s, snake_run Snake.init ops = Some s /\
                Snake.body s <> [] /\ body_in_grid s).
Proof.
  split; [| split].
  - intros s h tl Hb Hg.
    assert (Hne : Snake.body s <> []) by (rewrite Hb; discriminate).
    destruct (Snake_update_total s Hne) as [s' Hu].
    destruct (Snake_update_head s s' h tl Hb Hu) as [tl' Hh].
    destruct (Snake_update_fields s s' Hu) as (Hd & _ & _).
    exists s', tl'. rewrite Hd.
    split; [exact Hu |]. split; [reflexivity |]. split; [exact Hh |].
    exact (Snake_update_in_grid s s' Hg Hu).
  - intros s s' op Hg Hs. destruct op as [| | d]; simpl in Hs.
    + exact (Snake_update_in_grid s s' Hg Hs).
    + injection Hs as <-. exact Hg.
    + injection Hs as <-. unfold body_in_grid.
      destruct (set_direction_frame s d) as (-> & _ & _). exact Hg.
  - intro ops. destruct Snake_init_in_grid as [Hne Hg].
    split; [exact Hg |]. exact (snake_run_preserves ops Snake.init Hne Hg).
Qed.

Lemma update_head_wrapped_and_in_grid_witness :
  (Snake.body snake3 = Position.mk 5 5 :: [Position.mk 4 5; Position.mk 3 5] /\
   body_in_grid snake3) /\
  exists s' tl',
    Snake.update snake3 = Some s' /\
    Snake.direction s' = Snake.next_direction snake3 /\
    Snake.body s' = wrap (Position.add (Position.mk 5 5) (Snake.direction s')) :: tl' /\
    body_in_grid s'.
Proof.
  assert (Hg : body_in_grid snake3).
  { unfold body_in_grid, snake3, in_grid. simpl Snake.body.
    rewrite GRID_WIDTH_val, GRID_HEIGHT_val.
    repeat constructor; simpl; lia. }
  split; [split; [reflexivity | exact Hg] |].
  exact (proj1 update_head_wrapped_and_in_grid snake3 (Position.mk 5 5)
               [Position.mk 4 5; Position.mk 3 5] eq_refl Hg).
Defined.

(** C10: whatever directions are requested between two consecutive
    updates, the second update succeeds and the heading it commits is
    not the opposite of the heading the first one committed. *)
Theorem no_reversal_between_updates :
  forall (s : Snake.t) (ds : list Direction),
    Snake.body s <> [] ->
    exists s1 s2,
      Snake.update s = Some s1 /\
      Snake.update (set_directions s1 ds) = Some s2 /\
      Snake.direction s2 <> opposite (Snake.direction s1).
Proof.
  intros s ds Hne.
  destruct (Snake_update_total s Hne) as [s1 Hu1].
  destruct (Snake_update_fields s s1 Hu1) as (Hd1 & Hn1 & _).
  pose proof (Snake_update_nonempty s s1 Hu1) as Hne1.
  destruct (set_directions_frame ds s1) as (Hb & Hd & _).
  assert (Hne2 : Snake.body (set_directions s1 ds) <> []) by (rewrite Hb; exact Hne1).
  destruct (Snake_update_total _ Hne2) as [s2 Hu2].
  destruct (Snake_update_fields _ s2 Hu2) as (Hd2 & _ & _).
  exists s1, s2. split; [exact Hu1 |]. split; [exact Hu2 |].
  rewrite Hd2. apply set_directions_guard.
  rewrite Hn1, Hd1. apply opposite_irrefl.
Qed.

Lemma no_reversal_between_updates_witness :
  Snake.body snake3 <> [] /\
  exists s1 s2,
    Snake.update snake3 = Some s1 /\
    Snake.update (set_directions s1 [UP; LEFT; DOWN; LEFT]) = Some s2 /\
    Snake.direction s2 <> opposite (Snake.direction s1).
Proof.
  assert (H : Snake.body snake3 <> []) by discriminate.
  split; [exact H | exact (no_reversal_between_updates snake3 [UP; LEFT; DOWN; LEFT] H)].
Defined.

(** ** Game controller *)

(** C1, as stated, fails: on the tick in which the three-segment snake
    eats the food at (6,5), the body handed to the collision test still
    has three segments. *)
Lemma collision_test_sees_no_growth :
  SnakeGame.state game3 = PLAYING /\
  (exists g' r',
      SnakeGame.update game3 rng0 = Some (g', r') /\
      SnakeGame.score g' = SnakeGame.score game3 + 10 /\
      Snake.body (SnakeGame.snake g')
      = [Position.mk 6 5; Position.mk 5 5; Position.mk 4 5]) /\
  ~ collision_sees_growth game3 rng0.
Proof.
  split; [reflexivity |]. split.
  - do 2 eexists. split; [vm_compute; reflexivity |]. split; reflexivity.
  - intro H.
    specialize (H (SnakeGame.mk PLAYING
                     (Snake.mk [Position.mk 6 5; Position.mk 5 5; Position.mk 4 5]
                               RIGHT RIGHT false)
                     (Food.mk (Position.mk 6 5)) 0 0 true)
                  (SnakeGame.mk PLAYING
                     (Snake.mk [Position.mk 6 5; Position.mk 5 5; Position.mk 4 5]
                               RIGHT RIGHT true)
                     (fst (Food.respawn (Food.mk (Position.mk 6 5)) rng0)) 10 0 true)
                  (snd (Food.respawn (Food.mk (Position.mk 6 5)) rng0))
                  (Position.mk 6 5) [Position.mk 5 5; Position.mk 4 5]
                  eq_refl eq_refl eq_refl eq_refl).
    simpl in H. discriminate H.
Qed.

(** C1, amended: a tick in the Playing state first advances the snake;
    then, if the new head is on the food, it calls [grow], respawns the
    food and adds exactly 10 to the score; then it tests self-collision.
    [grow] only sets the pending flag, so the collision test examines the
    body exactly as the advance of this tick left it, and the segment for
    the food eaten on this tick is added by the next update. *)
Theorem tick_order_growth_deferred :
  forall (g : SnakeGame.t) (r : Random.t),
    SnakeGame.state g = PLAYING ->
    Snake.body (SnakeGame.snake g) <> [] ->
    exists s1 h1 tl1 g1 g2 r2 g3,
      Snake.update (SnakeGame.snake g) = Some s1 /\
      Snake.body s1 = h1 :: tl1 /\
      SnakeGame.advance_snake g = Some g1 /\
      SnakeGame.snake g1 = s1 /\
      SnakeGame.check_food g1 r = Some (g2, r2) /\
      (Position.eq h1 (Food.position (SnakeGame.food g)) = true ->
       SnakeGame.snake g2 = Snake.grow s1 /\
       (SnakeGame.food g2, r2) = Food.respawn (SnakeGame.food g) r /\
       SnakeGame.score g2 = SnakeGame.score g + 10) /\
      (Position.eq h1 (Food.position (SnakeGame.food g)) = false ->
       g2 = g1 /\ r2 = r /\ SnakeGame.score g2 = SnakeGame.score g) /\
      SnakeGame.check_self g2 = Some g3 /\
      SnakeGame.update g r = Some (g3, r2) /\
      (SnakeGame.state g3 = GAME_OVER <->
       Snake.check_collision (SnakeGame.snake g2) = Some true) /\
      Snake.body (SnakeGame.snake g2) = Snake.body s1 /\
      Snake.grow_pending (SnakeGame.snake g2)
      = Position.eq h1 (Food.position (SnakeGame.food g)) /\
      exists s3,
        Snake.update (SnakeGame.snake g3) = Some s3 /\
        length (Snake.body s3) =
        if Position.eq h1 (Food.position (SnakeGame.food g))
        then S (length (Snake.body s1)) else length (Snake.body s1).
Proof.
  intros g r Hst Hne.
  destruct (Snake_update_total _ Hne) as [s1 Hu].
  destruct (Snake_update_fields _ _ Hu) as (_ & _ & Hgp1).
  destruct (Snake.body s1) as [| h1 tl1] eqn:Hb1.
  { exfalso. exact (Snake_update_nonempty _ _ Hu Hb1). }
  pose proof (advance_snake_some g s1 Hu) as Hadv.
  set (g1 := SnakeGame.mk (SnakeGame.state g) s1 (SnakeGame.food g) (SnakeGame.score g)
                          (SnakeGame.high_score g) (SnakeGame.running g)) in *.
  assert (Hnext : forall a : Snake.t,
             Snake.body a = Snake.body s1 ->
             exists s3, Snake.update a = Some s3 /\
                        length (Snake.body s3) =
                        if Snake.grow_pending a
                        then S (length (Snake.body s1)) else length (Snake.body s1)).
  { intros a Ha.
    destruct (Snake_update_total a) as [s3 H3]; [rewrite Ha, Hb1; discriminate |].
    exists s3. split; [exact H3 |].
    rewrite (Snake_update_length a s3 H3), Ha. reflexivity. }
  assert (Hphase3 : forall g2 : SnakeGame.t,
             SnakeGame.state g2 = PLAYING ->
             Snake.body (SnakeGame.snake g2) = Snake.body s1 ->
             exists g3,
               SnakeGame.check_self g2 = Some g3 /\
               (SnakeGame.state g3 = GAME_OVER <->
                Snake.check_collision (SnakeGame.snake g2) = Some true) /\
               SnakeGame.snake g3 = SnakeGame.snake g2).
  { intros g2 Hst2 Hb2.
    destruct (check_collision_In (SnakeGame.snake g2) h1 tl1) as (b & Hc & _);
      [rewrite Hb2; exact Hb1 |].
    destruct b.
    - eexists. split; [apply (check_self_hit g2 Hc) |].
      split; [split; intros _; [exact Hc | reflexivity] | reflexivity].
    - exists g2. split; [apply (check_self_clear g2 Hc) |].
      split; [| reflexivity]. rewrite Hst2, Hc.
      split; intro H; discriminate H. }
  destruct (Position.eq h1 (Food.position (SnakeGame.food g))) eqn:Heat.
  - pose proof (check_food_eaten g1 r h1 tl1 Hb1 Heat) as Hfood.
    cbn [g1 SnakeGame.state SnakeGame.snake SnakeGame.food SnakeGame.score
         SnakeGame.high_score SnakeGame.running] in Hfood.
    match type of Hfood with _ = Some (?a, ?b) => set (g2 := a) in *; set (r2 := b) in * end.
    destruct (Hphase3 g2 Hst eq_refl) as (g3 & Hself & Hiff & Hsn).
    destruct (Hnext (SnakeGame.snake g3)) as (s3 & H3 & Hl3);
      [rewrite Hsn; reflexivity |].
    rewrite Hsn in Hl3. cbn [g2 SnakeGame.snake Snake.grow Snake.grow_pending] in Hl3.
    exists s1, h1, tl1, g1, g2, r2, g3. rewrite Heat.
    split; [exact Hu |]. split; [exact Hb1 |]. split; [exact Hadv |].
    split; [reflexivity |]. split; [exact Hfood |].
    split.
    { intros _. split; [reflexivity |]. split; [| reflexivity].
      unfold g2, r2. cbn [SnakeGame.food].
      destruct (Food.respawn (SnakeGame.food g) r); reflexivity. }
    split; [intro H; discriminate H |].
    split; [exact Hself |].
    split; [exact (SnakeGame_update_phases g g1 g2 g3 r r2 Hst Hadv Hfood Hself) |].
    split; [exact Hiff |]. split; [reflexivity |]. split; [reflexivity |].
    exists s3. split; [exact H3 | exact Hl3].
  - pose proof (check_food_missed g1 r h1 tl1 Hb1 Heat) as Hfood.
    destruct (Hphase3 g1 Hst eq_refl) as (g3 & Hself & Hiff & Hsn).
    destruct (Hnext (SnakeGame.snake g3)) as (s3 & H3 & Hl3);
      [rewrite Hsn; reflexivity |].
    rewrite Hsn in Hl3. cbn [g1 SnakeGame.snake] in Hl3. rewrite Hgp1 in Hl3.
    exists s1, h1, tl1, g1, g1, r, g3. rewrite Heat.
    split; [exact Hu |]. split; [exact Hb1 |]. split; [exact Hadv |].
    split; [reflexivity |]. split; [exact Hfood |].
    split; [intro H; discriminate H |].
    split; [intros _; auto |].
    split; [exact Hself |].
    split; [exact (SnakeGame_update_phases g g1 g1 g3 r r Hst Hadv Hfood Hself) |].
    split; [exact Hiff |]. split; [reflexivity |]. split; [exact Hgp1 |].
    exists s3. split; [exact H3 | exact Hl3].
Qed.

Lemma tick_order_growth_deferred_witness :
  (SnakeGame.state game3 = PLAYING /\ Snake.body (SnakeGame.snake game3) <> []) /\
  exists g3 r2, SnakeGame.update game3 rng0 = Some (g3, r2).
Proof.
  assert (Hst : SnakeGame.state game3 = PLAYING) by reflexivity.
  assert (Hne : Snake.body (SnakeGame.snake game3) <> []) by discriminate.
  split; [split; assumption |].
  destruct (tick_order_growth_deferred game3 rng0 Hst Hne)
    as (s1 & h1 & tl1 & g1 & g2 & r2 & g3 & _ & _ & _ & _ & _ & _ & _ & _ & Hup & _).
  exists g3, r2. exact Hup.
Defined.

(** C7: in the Playing state, when the snake as moved by the tick
    collides with itself, the tick ends in GameOver with the high score
    set to the larger of the old high score and the score; every
    controller operation on a game whose snake has a body returns and
    does not lower the high score, and so does every sequence of them,
    and every game reached from a new controller has such a snake. *)
Theorem collision_ends_game_high_score_monotone :
  (forall (g : SnakeGame.t) (r : Random.t) (s1 : Snake.t),
      SnakeGame.state g = PLAYING ->
      Snake.update (SnakeGame.snake g) = Some s1 ->
      Snake.check_collision s1 = Some true ->
      exists g' r',
        SnakeGame.update g r = Some (g', r') /\
        SnakeGame.state g' = GAME_OVER /\
        SnakeGame.high_score g' = Z.max (SnakeGame.high_score g) (SnakeGame.score g') /\
        (SnakeGame.score g' = SnakeGame.score g \/
         SnakeGame.score g' = SnakeGame.score g + 10)) /\
  (forall (g : SnakeGame.t) (r : Random.t) (op : GameOp),
      Snake.body (SnakeGame.snake g) <> [] ->
      exists g' r',
        game_step g r op = Some (g', r') /\
        SnakeGame.high_score g <= SnakeGame.high_score g') /\
  (forall (g : SnakeGame.t) (r : Random.t) (ops : list GameOp),
      Snake.body (SnakeGame.snake g) <> [] ->
      exists g' r',
        game_run g r ops = Some (g', r') /\
        SnakeGame.high_score g <= SnakeGame.high_score g') /\
  (forall (r : Random.t) (ops : list GameOp),
      exists g' r',
        game_run (fst (SnakeGame.init r)) (snd (SnakeGame.init r)) ops = Some (g', r') /\
        Snake.body (SnakeGame.snake g') <> []).
Proof.
  split; [| split; [| split]].
  - intros g r s1 Hst Hu Hc.
    destruct (Snake.body s1) as [| h1 tl1] eqn:Hb1.
    { exfalso. exact (Snake_update_nonempty _ _ Hu Hb1). }
    assert (Hhit : existsb (Position.eq h1) tl1 = true).
    { unfold Snake.check_collision in Hc. rewrite Hb1 in Hc. congruence. }
    rewrite (SnakeGame_update_playing g r s1 h1 tl1 Hst Hu Hb1).
    unfold tick_result. rewrite Hhit. do 2 eexists. split; [reflexivity |].
    cbn [SnakeGame.state SnakeGame.high_score SnakeGame.score].
    split; [reflexivity |]. split.
    + match goal with |- context [?a >? ?b] => destruct (Z.gtb_spec a b) end; lia.
    + destruct (Position.eq h1 (Food.position (SnakeGame.food g))); auto.
  - intros g r op Hne.
    destruct (game_step_keeps g r op Hne) as (g' & r' & Hs & Hh & _).
    exists g', r'. auto.
  - intros g r ops Hne.
    destruct (game_run_keeps ops g r Hne) as (g' & r' & Hs & Hh & _).
    exists g', r'. auto.
  - intros r ops.
    assert (Hne : Snake.body (SnakeGame.snake (fst (SnakeGame.init r))) <> []).
    { unfold SnakeGame.init. destruct (Food.init r). discriminate. }
    destruct (game_run_keeps ops _ (snd (SnakeGame.init r)) Hne) as (g' & r' & Hs & _ & Hb).
    exists g', r'. auto.
Qed.

Lemma collision_ends_game_high_score_monotone_witness :
  (SnakeGame.state game_loop = PLAYING /\
   Snake.update (SnakeGame.snake game_loop)
   = Some (Snake.mk [Position.mk 1 0; Position.mk 0 0; Position.mk 1 0] RIGHT RIGHT false) /\
   Snake.check_collision
     (Snake.mk [Position.mk 1 0; Position.mk 0 0; Position.mk 1 0] RIGHT RIGHT false)
   = Some true) /\
  exists g' r',
    SnakeGame.update game_loop rng0 = Some (g', r') /\
    SnakeGame.state g' = GAME_OVER /\
    SnakeGame.high_score g' = Z.max (SnakeGame.high_score game_loop) (SnakeGame.score g') /\
    (SnakeGame.score g' = SnakeGame.score game_loop \/
     SnakeGame.score g' = SnakeGame.score game_loop + 10).
Proof.
  split; [repeat split; reflexivity |].
  exact (proj1 collision_ends_game_high_score_monotone game_loop rng0
               (Snake.mk [Position.mk 1 0; Position.mk 0 0; Position.mk 1 0]
                         RIGHT RIGHT false)
               eq_refl eq_refl eq_refl).
Defined.

(** C8: in Menu and in GameOver the start key makes the state Playing
    with a new snake (one segment at the grid centre, heading Right, no
    growth pending), a new food inside the grid and score 0; the high
    score and the running flag are kept. *)
Theorem start_signal_resets_game :
  forall (g : SnakeGame.t) (r : Random.t),
    SnakeGame.state g = MENU \/ SnakeGame.state g = GAME_OVER ->
    exists g' r',
      SnakeGame.handle_input g r [KEYDOWN K_SPACE] = (g', r') /\
      SnakeGame.start_game g r = (g', r') /\
      SnakeGame.state g' = PLAYING /\
      SnakeGame.snake g' = Snake.init /\
      Snake.body (SnakeGame.snake g') = [Position.mk (GRID_WIDTH / 2) (GRID_HEIGHT / 2)] /\
      length (Snake.body (SnakeGame.snake g')) = 1%nat /\
      Snake.direction (SnakeGame.snake g') = RIGHT /\
      Snake.next_direction (SnakeGame.snake g') = RIGHT /\
      Snake.grow_pending (SnakeGame.snake g') = false /\
      Food.init r = (SnakeGame.food g', r') /\
      in_grid (Food.position (SnakeGame.food g')) /\
      SnakeGame.score g' = 0 /\
      SnakeGame.high_score g' = SnakeGame.high_score g /\
      SnakeGame.running g' = SnakeGame.running g.
Proof.
  intros g r Hst.
  assert (Hin : SnakeGame.handle_input g r [KEYDOWN K_SPACE] = SnakeGame.start_game g r).
  { unfold SnakeGame.handle_input, SnakeGame.handle_event.
    destruct Hst as [-> | ->]; destruct (SnakeGame.start_game g r); reflexivity. }
  rewrite Hin, start_game_fields. do 2 eexists.
  split; [reflexivity |]. split; [reflexivity |].
  cbn [SnakeGame.state SnakeGame.snake SnakeGame.food SnakeGame.score
       SnakeGame.high_score SnakeGame.running Food.position].
  do 7 (split; [reflexivity |]).
  split; [apply Food_init_fields |].
  split; [apply generate_position_in_grid |].
  repeat split; reflexivity.
Qed.

Lemma start_signal_resets_game_witness :
  (SnakeGame.state game_menu = MENU \/ SnakeGame.state game_menu = GAME_OVER) /\
  exists g' r',
    SnakeGame.handle_input game_menu rng0 [KEYDOWN K_SPACE] = (g', r') /\
    SnakeGame.state g' = PLAYING /\
    SnakeGame.score g' = 0 /\
    SnakeGame.high_score g' = 70.
Proof.
  assert (Hst : SnakeGame.state game_menu = MENU \/ SnakeGame.state game_menu = GAME_OVER)
    by (left; reflexivity).
  split; [exact Hst |].
  destruct (start_signal_resets_game game_menu rng0 Hst)
    as (g' & r' & Hin & _ & Hs & _ & _ & _ & _ & _ & _ & _ & _ & Hsc & Hh & _).
  exists g', r'. auto.
Defined.

(** C9: outside the Playing state a tick returns the game, and the
    generator, exactly as they were. *)
Theorem idle_tick_changes_nothing :
  forall (g : SnakeGame.t) (r : Random.t),
    SnakeGame.state g = MENU \/ SnakeGame.state g = GAME_OVER ->
    SnakeGame.update g r = Some (g, r).
Proof.
  intros g r Hst. apply SnakeGame_update_idle.
  destruct Hst as [-> | ->]; discriminate.
Qed.

Lemma idle_tick_changes_nothing_witness :
  (SnakeGame.state game_menu = MENU \/ SnakeGame.state game_menu = GAME_OVER) /\
  SnakeGame.update game_menu rng0 = Some (game_menu, rng0).
Proof.
  assert (Hst : SnakeGame.state game_menu = MENU \/ SnakeGame.state game_menu = GAME_OVER)
    by (left; reflexivity).
  split; [exact Hst | exact (idle_tick_changes_nothing game_menu rng0 Hst)].
Defined.


(** * Further properties of the code *)

(** ** Geometry of one step *)

Lemma wrap_add_coords (p : Position.t) (d : Direction) :
  wrap (Position.add p d)
  = Position.mk ((Position.x p + fst (value d)) mod 40)
                ((Position.y p + snd (value d)) mod 30).
Proof. rewrite Position_add_coords. reflexivity. Qed.

Lemma neighbours_parity (p q : Position.t) :
  neighbours p q -> parity p <> parity q.
Proof.
  intros [d ->]. rewrite wrap_add_coords. unfold parity.
  destruct q as [qx qy]. cbn [Position.x Position.y].
  destruct d; cbn [value fst snd]; intro H;
    revert H; Z.div_mod_to_equations; lia.
Qed.

Lemma parity_two (p : Position.t) : parity p = 0 \/ parity p = 1.
Proof.
  unfold parity. pose proof (Z.mod_pos_bound (Position.x p + Position.y p) 2). lia.
Qed.

Lemma no_turn_back (p : Position.t) (d1 d2 : Direction) :
  d2 <> opposite d1 ->
  wrap (Position.add (wrap (Position.add p d1)) d2) <> p.
Proof.
  intros Hd H. rewrite !wrap_add_coords in H.
  destruct p as [px py]. cbn [Position.x Position.y] in H.
  injection H as Hx Hy.
  destruct d1, d2; cbn [value fst snd] in Hx, Hy;
    try (apply Hd; reflexivity);
    revert Hx Hy; Z.div_mod_to_equations; lia.
Qed.

(** ** Shape of the body: what the operations keep *)

Lemma chained_prefix (l suffix : list Position.t) :
  chained (l ++ suffix) -> chained l.
Proof.
  induction l as [| p l IH]; intro H.
  - exact I.
  - destruct l as [| q l'].
    + exact I.
    + cbn [app chained] in H |- *. destruct H as [Hpq Hrest].
      split; [exact Hpq | apply IH; exact Hrest].
Qed.

Lemma Snake_update_prefix (s s' : Snake.t) (h : Position.t) (tl : list Position.t) :
  Snake.body s = h :: tl ->
  Snake.update s = Some s' ->
  exists suffix,
    Snake.body s' ++ suffix = wrap (Position.add h (Snake.next_direction s)) :: h :: tl.
Proof.
  intros Hb Hu. rewrite (Snake_update_inv s s' h tl Hb Hu). cbn [Snake.body].
  destruct (Snake.grow_pending s).
  - exists []. apply app_nil_r.
  - eexists. symmetry. apply app_removelast_last with (d := h). discriminate.
Qed.

Lemma snake_wf_init : snake_wf Snake.init.
Proof.
  destruct Snake_init_in_grid as [Hne Hg].
  repeat split; try assumption.
  - discriminate.
  - intros h p rest H. discriminate H.
  - intros h a b rest H. discriminate H.
Qed.

Lemma snake_wf_update (s s' : Snake.t) :
  snake_wf s -> Snake.update s = Some s' -> snake_wf s'.
Proof.
  intros (Hne & Hg & Hnd & Hhead & Hch & Htri) Hu.
  destruct (Snake.body s) as [| h tl] eqn:Hb; [contradiction Hne; reflexivity |].
  destruct (Snake_update_fields s s' Hu) as (Hd' & Hn' & _).
  destruct (Snake_update_prefix s s' h tl Hb Hu) as [suffix Hpre].
  split; [exact (Snake_update_nonempty s s' Hu) |].
  split; [exact (Snake_update_in_grid s s' Hg Hu) |].
  split; [rewrite Hd', Hn'; apply opposite_irrefl |].
  split; [| split].
  - intros h' p' rest' Hb'. rewrite Hb' in Hpre. cbn [app] in Hpre.
    injection Hpre as -> -> _. rewrite Hd'. reflexivity.
  - apply chained_prefix with (suffix := suffix). rewrite Hpre.
    cbn [chained]. split; [| exact Hch].
    exists (Snake.next_direction s). reflexivity.
  - intros h' a b rest' Hb'. rewrite Hb' in Hpre. cbn [app] in Hpre.
    injection Hpre as -> -> Htl.
    destruct tl as [| p1 tl']; [destruct rest'; discriminate Htl |].
    injection Htl as -> _.
    rewrite (Hhead h p1 tl' eq_refl).
    apply no_turn_back. exact Hnd.
Qed.

Lemma snake_wf_same_body (s s' : Snake.t) :
  snake_wf s ->
  Snake.body s' = Snake.body s ->
  Snake.direction s' = Snake.direction s ->
  Snake.next_direction s' <> opposite (Snake.direction s) ->
  snake_wf s'.
Proof.
  intros (Hne & Hg & Hnd & Hhead & Hch & Htri) Hb Hd Hn.
  unfold snake_wf, body_in_grid. rewrite Hb, Hd. auto 7.
Qed.

Lemma snake_wf_grow (s : Snake.t) : snake_wf s -> snake_wf (Snake.grow s).
Proof.
  intro H. apply (snake_wf_same_body s); try reflexivity; [exact H |].
  apply H.
Qed.

Lemma snake_wf_set_direction (s : Snake.t) (d : Direction) :
  snake_wf s -> snake_wf (Snake.set_direction s d).
Proof.
  intro H. destruct (set_direction_frame s d) as (Hb & Hd & _).
  apply (snake_wf_same_body s); try assumption.
  apply set_direction_guard. apply H.
Qed.

Lemma snake_wf_set_directions (ds : list Direction) (s : Snake.t) :
  snake_wf s -> snake_wf (set_directions s ds).
Proof.
  revert s. induction ds as [| d ds IH]; intros s H.
  - exact H.
  - apply (IH (Snake.set_direction s d)). apply snake_wf_set_direction. exact H.
Qed.

Lemma snake_run_wf (ops : list SnakeOp) (s : Snake.t) :
  snake_wf s -> exists s', snake_run s ops = Some s' /\ snake_wf s'.
Proof.
  revert s. induction ops as [| op ops IH]; intros s H.
  - exists s. split; [reflexivity | exact H].
  - destruct op as [| | d]; cbn [snake_run snake_step].
    + destruct (Snake_update_total s (proj1 H)) as [s1 Hu]. rewrite Hu.
      apply IH. exact (snake_wf_update s s1 H Hu).
    + apply IH. apply snake_wf_grow. exact H.
    + apply IH. apply snake_wf_set_direction. exact H.
Qed.

Lemma collision_needs_five (s : Snake.t) :
  snake_wf s ->
  Snake.check_collision s = Some true ->
  (5 <= length (Snake.body s))%nat.
Proof.
  intros (Hne & _ & _ & _ & Hch & Htri) Hc.
  destruct (Snake.body s) as [| h tl] eqn:Hb; [contradiction Hne; reflexivity |].
  destruct (check_collision_In s h tl Hb) as (b & Hc' & Hiff).
  rewrite Hc in Hc'. injection Hc' as <-.
  assert (Hin : In h tl) by (apply Hiff; reflexivity).
  destruct tl as [| a [| b [| c [| e tl']]]]; cbn [length]; try lia; exfalso.
  - destruct Hin.
  - cbn [chained] in Hch. destruct Hch as [Hha _].
    destruct Hin as [-> | []]. apply neighbours_parity in Hha. apply Hha; reflexivity.
  - cbn [chained] in Hch. destruct Hch as (Hha & Hab & _).
    destruct Hin as [-> | [-> | []]].
    + apply neighbours_parity in Hha. apply Hha; reflexivity.
    + exact (Htri h a h [] eq_refl eq_refl).
  - cbn [chained] in Hch. destruct Hch as (Hha & Hab & Hbc & _).
    apply neighbours_parity in Hha, Hab, Hbc.
    destruct Hin as [-> | [-> | [-> | []]]].
    + apply Hha; reflexivity.
    + exact (Htri h a h [c] eq_refl eq_refl).
    + destruct (parity_two h), (parity_two a), (parity_two b); lia.
Qed.

(** ** What the controller keeps *)

Lemma Food_respawn_fields (f : Food.t) (r : Random.t) :
  Food.respawn f r
  = (Food.mk (fst (Food._generate_position r)), snd (Food._generate_position r)).
Proof. unfold Food.respawn. destruct (Food._generate_position r). reflexivity. Qed.

Lemma segments_due_update (s s' : Snake.t) :
  Snake.update s = Some s' -> segments_due s' = segments_due s.
Proof.
  intro Hu. unfold segments_due.
  rewrite (Snake_update_length s s' Hu).
  destruct (Snake_update_fields s s' Hu) as (_ & _ & ->).
  destruct (Snake.grow_pending s); lia.
Qed.

Lemma game_wf_init (r : Random.t) : game_wf (fst (SnakeGame.init r)).
Proof.
  unfold SnakeGame.init. rewrite Food_init_fields. cbn [fst].
  unfold game_wf. cbn [SnakeGame.state SnakeGame.snake SnakeGame.food SnakeGame.score
                       SnakeGame.high_score Food.position].
  split; [apply snake_wf_init |]. split; [apply generate_position_in_grid |].
  split; [reflexivity |]. split; [lia |].
  split; [reflexivity | intro H; discriminate H].
Qed.

Lemma game_wf_start_game (g : SnakeGame.t) (r : Random.t) :
  0 <= SnakeGame.high_score g -> game_wf (fst (SnakeGame.start_game g r)).
Proof.
  intro Hh. rewrite start_game_fields. cbn [fst].
  unfold game_wf. cbn [SnakeGame.state SnakeGame.snake SnakeGame.food SnakeGame.score
                       SnakeGame.high_score Food.position].
  split; [apply snake_wf_init |]. split; [apply generate_position_in_grid |].
  split; [reflexivity |]. split; [exact Hh |].
  split; intro H; discriminate H.
Qed.

Lemma game_wf_running (g : SnakeGame.t) (b : bool) :
  game_wf g ->
  game_wf (SnakeGame.mk (SnakeGame.state g) (SnakeGame.snake g) (SnakeGame.food g)
                        (SnakeGame.score g) (SnakeGame.high_score g) b).
Proof. intro H. exact H. Qed.

Lemma game_wf_turn (g : SnakeGame.t) (d : Direction) :
  SnakeGame.state g = PLAYING ->
  game_wf g ->
  game_wf (SnakeGame.mk (SnakeGame.state g) (Snake.set_direction (SnakeGame.snake g) d)
                        (SnakeGame.food g) (SnakeGame.score g) (SnakeGame.high_score g)
                        (SnakeGame.running g)).
Proof.
  intros Hst (Hs & Hf & Hsc & Hh & Hm & Hg).
  destruct (set_direction_frame (SnakeGame.snake g) d) as (Hb & _ & Hgp).
  unfold game_wf. cbn [SnakeGame.state SnakeGame.snake SnakeGame.food SnakeGame.score
                       SnakeGame.high_score].
  split; [apply snake_wf_set_direction; exact Hs |].
  split; [exact Hf |]. split.
  - rewrite Hsc. unfold segments_due. rewrite Hb, Hgp. reflexivity.
  - split; [exact Hh |]. rewrite Hst. split; intro H; discriminate H.
Qed.

Lemma game_wf_handle_event (g : SnakeGame.t) (r : Random.t) (e : Event) :
  game_wf g -> game_wf (fst (SnakeGame.handle_event g r e)).
Proof.
  intro H. pose proof H as (_ & _ & _ & Hh & _).
  destruct e as [| key |]; unfold SnakeGame.handle_event.
  - apply game_wf_running. exact H.
  - destruct (SnakeGame.state g) eqn:Hst.
    + destruct key; try exact H; apply game_wf_start_game; exact Hh.
    + rewrite <- Hst.
      destruct key; try exact H; cbn [fst]; apply game_wf_turn; assumption.
    + destruct key; try exact H.
      * apply game_wf_start_game; exact Hh.
      * cbn [fst]. rewrite <- Hst. apply game_wf_running. exact H.
  - exact H.
Qed.

Lemma game_wf_handle_input (events : list Event) (g : SnakeGame.t) (r : Random.t) :
  game_wf g -> game_wf (fst (SnakeGame.handle_input g r events)).
Proof.
  revert g r. induction events as [| e events IH]; intros g r H.
  - exact H.
  - cbn [SnakeGame.handle_input].
    pose proof (game_wf_handle_event g r e H) as H1.
    destruct (SnakeGame.handle_event g r e) as [g1 r1]. apply IH. exact H1.
Qed.

Lemma game_wf_tick (g : SnakeGame.t) (r : Random.t) (s1 : Snake.t)
      (h1 : Position.t) (tl1 : list Position.t) :
  game_wf g ->
  Snake.update (SnakeGame.snake g) = Some s1 ->
  Snake.body s1 = h1 :: tl1 ->
  game_wf (fst (tick_result g r s1 h1 tl1)).
Proof.
  intros (Hs & Hf & Hsc & Hh & _ & _) Hu Hb1.
  pose proof (snake_wf_update _ _ Hs Hu) as Hs1.
  pose proof (segments_due_update _ _ Hu) as Hdue.
  destruct (Snake_update_fields _ _ Hu) as (_ & _ & Hgp1).
  unfold tick_result, game_wf.
  cbn [fst SnakeGame.state SnakeGame.snake SnakeGame.food SnakeGame.score
       SnakeGame.high_score].
  assert (Hcol : forall a : Snake.t,
             Snake.body a = Snake.body s1 ->
             existsb (Position.eq h1) tl1 = true ->
             Snake.check_collision a = Some true).
  { intros a Ha Hhit. unfold Snake.check_collision. rewrite Ha, Hb1, Hhit. reflexivity. }
  destruct (Position.eq h1 (Food.position (SnakeGame.food g))).
  - rewrite Food_respawn_fields. cbn [fst Food.position].
    split; [apply snake_wf_grow; exact Hs1 |].
    split; [apply generate_position_in_grid |].
    split.
    { rewrite Hsc, <- Hdue. unfold segments_due. cbn [Snake.grow Snake.body Snake.grow_pending].
      rewrite Hgp1. lia. }
    destruct (existsb (Position.eq h1) tl1) eqn:Hhit.
    + destruct (Z.gtb_spec (SnakeGame.score g + 10) (SnakeGame.high_score g)).
      * split; [lia |]. split; [intro K; discriminate K |].
        intros _. split; [apply Hcol; [reflexivity | exact eq_refl] | lia].
      * split; [lia |]. split; [intro K; discriminate K |].
        intros _. split; [apply Hcol; [reflexivity | exact eq_refl] | lia].
    + split; [exact Hh |]. split; intro K; discriminate K.
  - cbn [fst].
    split; [exact Hs1 |]. split; [exact Hf |].
    split; [rewrite Hsc, Hdue; reflexivity |].
    destruct (existsb (Position.eq h1) tl1) eqn:Hhit.
    + destruct (Z.gtb_spec (SnakeGame.score g) (SnakeGame.high_score g)).
      * split; [lia |]. split; [intro K; discriminate K |].
        intros _. split; [apply Hcol; [reflexivity | exact eq_refl] | lia].
      * split; [lia |]. split; [intro K; discriminate K |].
        intros _. split; [apply Hcol; [reflexivity | exact eq_refl] | lia].
    + split; [exact Hh |]. split; intro K; discriminate K.
Qed.

Lemma game_step_wf (g : SnakeGame.t) (r : Random.t) (op : GameOp) :
  game_wf g ->
  exists g' r', game_step g r op = Some (g', r') /\ game_wf g'.
Proof.
  intro H. destruct op as [events | |]; cbn [game_step].
  - pose proof (game_wf_handle_input events g r H) as H1.
    destruct (SnakeGame.handle_input g r events) as [g' r'].
    exists g', r'. split; [reflexivity | exact H1].
  - pose proof H as (_ & _ & _ & Hh & _).
    pose proof (game_wf_start_game g r Hh) as H1.
    destruct (SnakeGame.start_game g r) as [g' r'].
    exists g', r'. split; [reflexivity | exact H1].
  - destruct (SnakeGame.state g) eqn:Hst.
    + rewrite SnakeGame_update_idle by (rewrite Hst; discriminate).
      exists g, r. split; [reflexivity | exact H].
    + pose proof H as ((Hne & _) & _).
      destruct (Snake_update_total _ Hne) as [s1 Hu].
      destruct (Snake.body s1) as [| h1 tl1] eqn:Hb1.
      { exfalso. exact (Snake_update_nonempty _ _ Hu Hb1). }
      rewrite (SnakeGame_update_playing g r s1 h1 tl1 Hst Hu Hb1).
      pose proof (game_wf_tick g r s1 h1 tl1 H Hu Hb1) as H1.
      destruct (tick_result g r s1 h1 tl1) as [g' r'].
      exists g', r'. split; [reflexivity | exact H1].
    + rewrite SnakeGame_update_idle by (rewrite Hst; discriminate).
      exists g, r. split; [reflexivity | exact H].
Qed.

Lemma game_run_wf (ops : list GameOp) (g : SnakeGame.t) (r : Random.t) :
  game_wf g ->
  exists g' r', game_run g r ops = Some (g', r') /\ game_wf g'.
Proof.
  revert g r. induction ops as [| op ops IH]; intros g r H.
  - exists g, r. split; [reflexivity | exact H].
  - destruct (game_step_wf g r op H) as (g1 & r1 & H1 & Hwf1).
    cbn [game_run]. rewrite H1. apply IH. exact Hwf1.
Qed.

(** ** Snake: movement *)

(** X1: from a head inside the grid, [update] puts the new head on the
    next cell in the committed direction, re-entering from the opposite
    edge at the border of the grid. *)
Theorem update_moves_head_one_cell :
  forall (s : Snake.t) (h : Position.t) (tl : list Position.t),
    Snake.body s = h :: tl ->
    in_grid h ->
    exists s' tl',
      Snake.update s = Some s' /\
      Snake.body s' =
      (match Snake.next_direction s with
       | RIGHT =>
           Position.mk (if Position.x h =? GRID_WIDTH - 1 then 0 else Position.x h + 1)
                       (Position.y h)
       | LEFT =>
           Position.mk (if Position.x h =? 0 then GRID_WIDTH - 1 else Position.x h - 1)
                       (Position.y h)
       | UP =>
           Position.mk (Position.x h)
                       (if Position.y h =? 0 then GRID_HEIGHT - 1 else Position.y h - 1)
       | DOWN =>
           Position.mk (Position.x h)
                       (if Position.y h =? GRID_HEIGHT - 1 then 0 else Position.y h + 1)
       end) :: tl'.
Proof.
  intros s h tl Hb [Hx Hy].
  rewrite GRID_WIDTH_val in Hx. rewrite GRID_HEIGHT_val in Hy.
  destruct (Snake_update_total s) as [s' Hu]; [rewrite Hb; discriminate |].
  destruct (Snake_update_head s s' h tl Hb Hu) as [tl' Hh].
  exists s', tl'. split; [exact Hu |]. rewrite Hh. f_equal.
  rewrite wrap_add_coords, GRID_WIDTH_val, GRID_HEIGHT_val.
  destruct h as [hx hy]. cbn [Position.x Position.y] in *.
  destruct (Snake.next_direction s); cbn [value fst snd]; f_equal;
    try (rewrite Z.add_0_r; apply Z.mod_small; lia).
  - destruct (Z.eqb_spec hy 0) as [-> | Hn]; [reflexivity | apply Z.mod_small; lia].
  - destruct (Z.eqb_spec hy (30 - 1)) as [-> | Hn]; [reflexivity | apply Z.mod_small; lia].
  - destruct (Z.eqb_spec hx 0) as [-> | Hn]; [reflexivity | apply Z.mod_small; lia].
  - destruct (Z.eqb_spec hx (40 - 1)) as [-> | Hn]; [reflexivity | apply Z.mod_small; lia].
Qed.

Lemma update_moves_head_one_cell_witness :
  (Snake.body (Snake.mk [Position.mk 0 7] LEFT LEFT false) = Position.mk 0 7 :: [] /\
   in_grid (Position.mk 0 7)) /\
  exists s', Snake.update (Snake.mk [Position.mk 0 7] LEFT LEFT false) = Some s' /\
             Snake.body s' = [Position.mk 39 7].
Proof.
  assert (Hg : in_grid (Position.mk 0 7)).
  { unfold in_grid. rewrite GRID_WIDTH_val, GRID_HEIGHT_val. simpl. lia. }
  split; [split; [reflexivity | exact Hg] |].
  destruct (update_moves_head_one_cell
              (Snake.mk [Position.mk 0 7] LEFT LEFT false) (Position.mk 0 7) [] eq_refl Hg)
    as (s' & tl' & Hu & Hb).
  exists s'. split; [exact Hu |].
  pose proof (Snake_update_length _ _ Hu) as Hl. rewrite Hb in Hl.
  destruct tl'; [exact Hb | discriminate Hl].
Defined.

(** X2: after [update] every segment behind the head lies where its
    predecessor was before the call. *)
Theorem segments_follow_predecessor :
  forall (s s' : Snake.t) (i : nat),
    Snake.update s = Some s' ->
    (S i < length (Snake.body s'))%nat ->
    nth_error (Snake.body s') (S i) = nth_error (Snake.body s) i.
Proof.
  intros s s' i Hu Hi.
  destruct (Snake.body s) as [| h tl] eqn:Hb.
  - rewrite (Snake_update_empty s Hb) in Hu. discriminate Hu.
  - destruct (Snake_update_prefix s s' h tl Hb Hu) as [suffix Hpre].
    rewrite <- (nth_error_app1 (Snake.body s') suffix Hi), Hpre. reflexivity.
Qed.

Lemma segments_follow_predecessor_witness :
  (Snake.update snake3
   = Some (Snake.mk [Position.mk 6 5; Position.mk 5 5; Position.mk 4 5] RIGHT RIGHT false) /\
   (2 < 3)%nat) /\
  nth_error [Position.mk 6 5; Position.mk 5 5; Position.mk 4 5] 2
  = nth_error (Snake.body snake3) 1.
Proof.
  split; [split; [reflexivity | lia] |].
  exact (segments_follow_predecessor snake3
           (Snake.mk [Position.mk 6 5; Position.mk 5 5; Position.mk 4 5] RIGHT RIGHT false)
           1%nat eq_refl (Nat.lt_succ_diag_r 2)).
Defined.

(** X3: whatever operations are run on a new snake, they all return,
    consecutive segments of the body are neighbouring cells of the torus,
    the head is not on the third segment, and the pending direction is not
    the opposite of the heading. *)
Theorem snake_body_stays_chained :
  forall ops : list SnakeOp,
  exists s,
    snake_run Snake.init ops = Some s /\
    chained (Snake.body s) /\
    (forall h a b rest, Snake.body s = h :: a :: b :: rest -> h <> b) /\
    Snake.next_direction s <> opposite (Snake.direction s).
Proof.
  intro ops.
  destruct (snake_run_wf ops Snake.init snake_wf_init)
    as (s & Hr & _ & _ & Hnd & _ & Hch & Htri).
  exists s. auto.
Qed.

Lemma snake_body_stays_chained_witness :
  exists s, snake_run Snake.init snake_ops_square = Some s /\ chained (Snake.body s).
Proof.
  destruct (snake_body_stays_chained snake_ops_square) as (s & Hr & Hch & _).
  exists s. split; assumption.
Defined.

(** X4: a snake driven from its initial state by any operations can only
    collide with itself when it has at least five segments. *)
Theorem collision_needs_five_segments :
  forall (ops : list SnakeOp) (s : Snake.t),
    snake_run Snake.init ops = Some s ->
    Snake.check_collision s = Some true ->
    (5 <= length (Snake.body s))%nat.
Proof.
  intros ops s Hr Hc.
  destruct (snake_run_wf ops Snake.init snake_wf_init) as (s' & Hr' & Hwf).
  rewrite Hr in Hr'. injection Hr' as <-.
  exact (collision_needs_five s Hwf Hc).
Qed.

Lemma collision_needs_five_segments_witness :
  exists s,
    snake_run Snake.init snake_ops_square = Some s /\
    Snake.check_collision s = Some true /\
    (5 <= length (Snake.body s))%nat.
Proof.
  assert (H : exists s,
             snake_run Snake.init snake_ops_square = Some s /\
             Snake.check_collision s = Some true).
  { eexists. split; vm_compute; reflexivity. }
  destruct H as (s & Hr & Hc).
  exists s. split; [exact Hr |]. split; [exact Hc |].
  exact (collision_needs_five_segments snake_ops_square s Hr Hc).
Defined.

(** X5: the direction requests made while the heading does not change
    compose as "the last accepted one wins": the pending direction is the
    last request that is not the opposite of the heading, or the former
    pending direction when none is accepted, and the next [update] heads
    there. *)
Theorem last_accepted_request_wins :
  forall (s : Snake.t) (ds : list Direction),
    Snake.next_direction (set_directions s ds)
    = last (accepted (Snake.direction s) ds) (Snake.next_direction s) /\
    (Snake.body s <> [] ->
     exists s',
       Snake.update (set_directions s ds) = Some s' /\
       Snake.direction s'
       = last (accepted (Snake.direction s) ds) (Snake.next_direction s)).
Proof.
  assert (Hlast : forall (l : list Direction) (a d : Direction), last (a :: l) d = last l a).
  { induction l as [| b l IH]; intros a d.
    - reflexivity.
    - change (last (a :: b :: l) d) with (last (b :: l) d).
      rewrite (IH b d), (IH b a). reflexivity. }
  assert (Hnext : forall ds s,
             Snake.next_direction (set_directions s ds)
             = last (accepted (Snake.direction s) ds) (Snake.next_direction s)).
  { induction ds as [| d ds IH]; intro s.
    - reflexivity.
    - change (set_directions s (d :: ds))
        with (set_directions (Snake.set_direction s d) ds).
      rewrite IH.
      destruct (set_direction_frame s d) as (_ & Hd & _). rewrite Hd.
      unfold accepted at 2. cbn [filter]. fold (accepted (Snake.direction s) ds).
      destruct (set_direction_cases s d) as [[Hne ->] | [-> ->]].
      + apply Direction_eqb_neq in Hne. rewrite Hne. cbn [negb Snake.next_direction].
        symmetry. apply Hlast.
      + assert (E : Direction_eqb (opposite (Snake.direction s))
                                  (opposite (Snake.direction s)) = true)
          by (apply Direction_eqb_eq; reflexivity).
        rewrite E. reflexivity. }
  intros s ds. split; [apply Hnext |].
  intro Hne. destruct (set_directions_frame ds s) as (Hb & _ & _).
  destruct (Snake_update_total (set_directions s ds)) as [s' Hu];
    [rewrite Hb; exact Hne |].
  exists s'. split; [exact Hu |].
  destruct (Snake_update_fields _ _ Hu) as (-> & _ & _). apply Hnext.
Qed.

Lemma last_accepted_request_wins_witness :
  Snake.body snake3 <> [] /\
  exists s',
    Snake.update (set_directions snake3 [UP; LEFT; DOWN; LEFT]) = Some s' /\
    Snake.direction s' = DOWN.
Proof.
  assert (H : Snake.body snake3 <> []) by discriminate.
  split; [exact H |].
  exact (proj2 (last_accepted_request_wins snake3 [UP; LEFT; DOWN; LEFT]) H).
Defined.

(** ** Controller: input *)

Lemma handle_event_playing (g : SnakeGame.t) (r : Random.t) (e : Event) :
  SnakeGame.state g = PLAYING ->
  SnakeGame.handle_event g r e =
  (SnakeGame.mk PLAYING (set_directions (SnakeGame.snake g) (requested [e]))
                (SnakeGame.food g) (SnakeGame.score g) (SnakeGame.high_score g)
                (SnakeGame.running g && negb (is_quit e)),
   r).
Proof.
  intro Hst. destruct g as [st sn fd sc hs rn]. cbn [SnakeGame.state] in Hst. subst st.
  destruct e as [| key |]; cbn.
  - rewrite andb_false_r. reflexivity.
  - destruct key; cbn; rewrite andb_true_r; reflexivity.
  - rewrite andb_true_r. reflexivity.
Qed.

Lemma requested_cons (e : Event) (events : list Event) :
  requested (e :: events) = requested [e] ++ requested events.
Proof.
  destruct e as [| key |]; cbn [requested]; try reflexivity.
  destruct (key_direction key); reflexivity.
Qed.

Lemma handle_event_running_false (g : SnakeGame.t) (r : Random.t) (e : Event) :
  SnakeGame.running g = false ->
  SnakeGame.running (fst (SnakeGame.handle_event g r e)) = false.
Proof.
  intro Hr. unfold SnakeGame.handle_event.
  destruct e as [| key |]; [reflexivity | | exact Hr].
  destruct (SnakeGame.state g); destruct key;
    rewrite ?start_game_fields; cbn [fst SnakeGame.running]; first [exact Hr | reflexivity].
Qed.

Lemma handle_input_running_false (events : list Event) (g : SnakeGame.t) (r : Random.t) :
  SnakeGame.running g = false ->
  SnakeGame.running (fst (SnakeGame.handle_input g r events)) = false.
Proof.
  revert g r. induction events as [| e events IH]; intros g r Hr.
  - exact Hr.
  - cbn [SnakeGame.handle_input].
    pose proof (handle_event_running_false g r e Hr) as H1.
    destruct (SnakeGame.handle_event g r e) as [g1 r1]. apply IH. exact H1.
Qed.

Lemma handle_input_quit (events : list Event) (g : SnakeGame.t) (r : Random.t) :
  existsb is_quit events = true ->
  SnakeGame.running (fst (SnakeGame.handle_input g r events)) = false.
Proof.
  revert g r. induction events as [| e events IH]; intros g r Hq.
  - discriminate Hq.
  - cbn [SnakeGame.handle_input]. cbn [existsb] in Hq.
    destruct (is_quit e) eqn:He.
    + destruct e; try discriminate He.
      cbn [SnakeGame.handle_event]. apply handle_input_running_false. reflexivity.
    + destruct (SnakeGame.handle_event g r e) as [g1 r1]. apply IH. exact Hq.
Qed.

Lemma handle_event_state (g : SnakeGame.t) (r : Random.t) (e : Event) :
  SnakeGame.state (fst (SnakeGame.handle_event g r e)) = SnakeGame.state g \/
  (SnakeGame.state g <> PLAYING /\
   SnakeGame.state (fst (SnakeGame.handle_event g r e)) = PLAYING).
Proof.
  unfold SnakeGame.handle_event.
  destruct e as [| key |]; [left; reflexivity | | left; reflexivity].
  destruct (SnakeGame.state g) eqn:Hst; destruct key;
    rewrite ?start_game_fields; cbn [fst SnakeGame.state];
      first [left; assumption | left; reflexivity
             | right; split; [discriminate | reflexivity]].
Qed.

Lemma handle_input_state (events : list Event) (g : SnakeGame.t) (r : Random.t) :
  SnakeGame.state (fst (SnakeGame.handle_input g r events)) = SnakeGame.state g \/
  (SnakeGame.state g <> PLAYING /\
   SnakeGame.state (fst (SnakeGame.handle_input g r events)) = PLAYING).
Proof.
  revert g r. induction events as [| e events IH]; intros g r.
  - left. reflexivity.
  - cbn [SnakeGame.handle_input].
    pose proof (handle_event_state g r e) as H1.
    destruct (SnakeGame.handle_event g r e) as [g1 r1]. cbn [fst] in H1.
    destruct (IH g1 r1) as [E | [Hn E]]; destruct H1 as [E1 | [Hn1 E1]].
    + left. congruence.
    + right. split; [exact Hn1 | congruence].
    + right. split; [congruence | exact E].
    + contradiction.
Qed.

Lemma SnakeGame_update_frame (g g' : SnakeGame.t) (r r' : Random.t) :
  SnakeGame.update g r = Some (g', r') ->
  SnakeGame.running g' = SnakeGame.running g /\
  (SnakeGame.state g' = SnakeGame.state g \/
   (SnakeGame.state g = PLAYING /\ SnakeGame.state g' = GAME_OVER)).
Proof.
  intro Hu. destruct (SnakeGame.state g) eqn:Hst.
  - rewrite SnakeGame_update_idle in Hu by (rewrite Hst; discriminate).
    injection Hu as <- <-. auto.
  - destruct (Snake.update (SnakeGame.snake g)) as [s1 |] eqn:Hs.
    + destruct (Snake.body s1) as [| h1 tl1] eqn:Hb1.
      { exfalso. exact (Snake_update_nonempty _ _ Hs Hb1). }
      rewrite (SnakeGame_update_playing g r s1 h1 tl1 Hst Hs Hb1) in Hu.
      unfold tick_result in Hu. injection Hu as <- _.
      cbn [SnakeGame.running SnakeGame.state].
      split; [reflexivity |].
      destruct (existsb (Position.eq h1) tl1); auto.
    + unfold SnakeGame.update, SnakeGame.advance_snake in Hu.
      rewrite Hst, Hs in Hu. discriminate Hu.
  - rewrite SnakeGame_update_idle in Hu by (rewrite Hst; discriminate).
    injection Hu as <- <-. auto.
Qed.

(** X6: in the Playing state one poll of events leaves the state, the
    body, the heading, the food, the scores and the generator as they
    were: its arrow keys act as that sequence of [set_direction] calls,
    the space and q keys do nothing, and [running] is cleared exactly when
    the poll holds a quit event. *)
Theorem handle_input_while_playing :
  forall (events : list Event) (g : SnakeGame.t) (r : Random.t),
    SnakeGame.state g = PLAYING ->
    SnakeGame.handle_input g r events =
    (SnakeGame.mk PLAYING (set_directions (SnakeGame.snake g) (requested events))
                  (SnakeGame.food g) (SnakeGame.score g) (SnakeGame.high_score g)
                  (SnakeGame.running g && negb (existsb is_quit events)),
     r).
Proof.
  induction events as [| e events IH]; intros g r Hst.
  - destruct g as [st sn fd sc hs rn]. cbn in Hst |- *. subst st.
    rewrite andb_true_r. reflexivity.
  - cbn [SnakeGame.handle_input]. rewrite (handle_event_playing g r e Hst).
    rewrite IH by reflexivity.
    cbn [SnakeGame.snake SnakeGame.food SnakeGame.score SnakeGame.high_score
         SnakeGame.running existsb].
    rewrite (requested_cons e events). unfold set_directions. rewrite fold_left_app.
    rewrite negb_orb, andb_assoc. reflexivity.
Qed.

Lemma handle_input_while_playing_witness :
  SnakeGame.state game3 = PLAYING /\
  SnakeGame.handle_input game3 rng0
    [KEYDOWN K_SPACE; KEYDOWN K_LEFT; KEYDOWN K_UP; KEYDOWN K_q; QUIT]
  = (SnakeGame.mk PLAYING
       (Snake.mk [Position.mk 5 5; Position.mk 4 5; Position.mk 3 5] RIGHT UP false)
       (Food.mk (Position.mk 6 5)) 0 0 false,
     rng0).
Proof.
  split; [reflexivity |].
  exact (handle_input_while_playing
           [KEYDOWN K_SPACE; KEYDOWN K_LEFT; KEYDOWN K_UP; KEYDOWN K_q; QUIT]
           game3 rng0 eq_refl).
Defined.

(** X7: a poll that holds a quit event leaves [running] false whatever
    the state, and once [running] is false no operation of the controller
    sets it again. *)
Theorem quit_is_final :
  (forall (events : list Event) (g : SnakeGame.t) (r : Random.t),
      existsb is_quit events = true ->
      SnakeGame.running (fst (SnakeGame.handle_input g r events)) = false) /\
  (forall (g g' : SnakeGame.t) (r r' : Random.t) (op : GameOp),
      game_step g r op = Some (g', r') ->
      SnakeGame.running g = false ->
      SnakeGame.running g' = false).
Proof.
  split.
  - intros events g r. apply handle_input_quit.
  - intros g g' r r' op Hs Hr. destruct op as [events | |]; cbn [game_step] in Hs.
    + injection Hs as Hs. change g' with (fst (g', r')). rewrite <- Hs.
      apply handle_input_running_false. exact Hr.
    + rewrite start_game_fields in Hs. injection Hs as <- _. exact Hr.
    + destruct (SnakeGame_update_frame g g' r r' Hs) as [-> _]. exact Hr.
Qed.

Lemma quit_is_final_witness :
  existsb is_quit [KEYDOWN K_SPACE; QUIT; KEYDOWN K_UP] = true /\
  SnakeGame.running
    (fst (SnakeGame.handle_input game_menu rng0 [KEYDOWN K_SPACE; QUIT; KEYDOWN K_UP]))
  = false.
Proof.
  split; [reflexivity |].
  exact (proj1 quit_is_final [KEYDOWN K_SPACE; QUIT; KEYDOWN K_UP] game_menu rng0 eq_refl).
Defined.

(** X8: the controller never goes back to the menu, a game in Playing
    only leaves it through a tick that ends it, and GameOver is entered
    by no other way. *)
Theorem state_transitions :
  forall (g g' : SnakeGame.t) (r r' : Random.t) (op : GameOp),
    game_step g r op = Some (g', r') ->
    (SnakeGame.state g' = MENU -> SnakeGame.state g = MENU) /\
    (SnakeGame.state g = PLAYING ->
     SnakeGame.state g' = PLAYING \/ (SnakeGame.state g' = GAME_OVER /\ op = DoUpdate)) /\
    (SnakeGame.state g' = GAME_OVER ->
     SnakeGame.state g = GAME_OVER \/ (SnakeGame.state g = PLAYING /\ op = DoUpdate)).
Proof.
  intros g g' r r' op Hs.
  assert (Hcases :
            SnakeGame.state g' = SnakeGame.state g \/
            (SnakeGame.state g <> PLAYING /\ SnakeGame.state g' = PLAYING) \/
            (SnakeGame.state g = PLAYING /\ SnakeGame.state g' = GAME_OVER /\ op = DoUpdate)).
  { destruct op as [events | |]; cbn [game_step] in Hs.
    - injection Hs as Hs. change g' with (fst (g', r')). rewrite <- Hs.
      destruct (handle_input_state events g r) as [E | [Hn E]]; auto.
    - rewrite start_game_fields in Hs. injection Hs as <- _. cbn [SnakeGame.state].
      destruct (SnakeGame.state g); auto; right; left; split; (discriminate || reflexivity).
    - destruct (SnakeGame_update_frame g g' r r' Hs) as [_ [E | [E1 E2]]]; auto. }
  destruct Hcases as [E | [[Hn E] | (E1 & E2 & E3)]].
  - rewrite E. split; [auto | split; intro H; left; exact H].
  - rewrite E. split; [intro H; discriminate H |].
    split; [intro H; contradiction | intro H; discriminate H].
  - rewrite E1, E2. split; [intro H; discriminate H |]. split; intros _; right; auto.
Qed.

Lemma state_transitions_witness :
  game_step game_loop rng0 DoUpdate
  = Some (SnakeGame.mk GAME_OVER
            (Snake.mk [Position.mk 1 0; Position.mk 0 0; Position.mk 1 0] RIGHT RIGHT false)
            (Food.mk (Position.mk 9 9)) 30 30 true,
          rng0) /\
  (SnakeGame.state game_loop = GAME_OVER \/
   (SnakeGame.state game_loop = PLAYING /\ DoUpdate = DoUpdate)).
Proof.
  split; [reflexivity |].
  exact (proj2 (proj2 (state_transitions game_loop _ rng0 rng0 DoUpdate eq_refl)) eq_refl).
Defined.

(** ** Controller: every game that can be reached *)

(** X9: whatever operations are run on a new controller, they all
    return, and in the game they reach the snake has a body, every
    segment of it is inside the grid and so is the food. *)
Theorem reachable_game_in_grid :
  forall (r : Random.t) (ops : list GameOp),
  exists g' r',
    game_run (fst (SnakeGame.init r)) (snd (SnakeGame.init r)) ops = Some (g', r') /\
    Snake.body (SnakeGame.snake g') <> [] /\
    body_in_grid (SnakeGame.snake g') /\
    in_grid (Food.position (SnakeGame.food g')).
Proof.
  intros r ops.
  destruct (game_run_wf ops _ (snd (SnakeGame.init r)) (game_wf_init r))
    as (g' & r' & Hr & (Hne & Hg & _) & Hf & _).
  exists g', r'. auto.
Qed.

(** X10: in every game reached from a new controller the score is ten
    times the number of segments the snake has gained, counting the one
    still pending; so it is never negative. *)
Theorem score_counts_segments :
  forall (r : Random.t) (ops : list GameOp),
  exists g' r',
    game_run (fst (SnakeGame.init r)) (snd (SnakeGame.init r)) ops = Some (g', r') /\
    SnakeGame.score g'
    = 10 * (Z.of_nat (length (Snake.body (SnakeGame.snake g')))
            + (if Snake.grow_pending (SnakeGame.snake g') then 1 else 0) - 1) /\
    0 <= SnakeGame.score g'.
Proof.
  intros r ops.
  destruct (game_run_wf ops _ (snd (SnakeGame.init r)) (game_wf_init r))
    as (g' & r' & Hr & (Hne & _) & _ & Hsc & _).
  exists g', r'. split; [exact Hr |]. unfold segments_due in Hsc.
  split; [exact Hsc |]. rewrite Hsc.
  destruct (Snake.body (SnakeGame.snake g')); [contradiction Hne; reflexivity |].
  cbn [length]. destruct (Snake.grow_pending (SnakeGame.snake g')); lia.
Qed.

(** X11: a game reached from a new controller that is over has a snake
    that collides with itself, at least five segments long, a score of
    at least 40, and a high score that is not below the score. *)
Theorem game_over_bounds :
  forall (r r' : Random.t) (ops : list GameOp) (g' : SnakeGame.t),
    game_run (fst (SnakeGame.init r)) (snd (SnakeGame.init r)) ops = Some (g', r') ->
    SnakeGame.state g' = GAME_OVER ->
    Snake.check_collision (SnakeGame.snake g') = Some true /\
    (5 <= length (Snake.body (SnakeGame.snake g')))%nat /\
    40 <= SnakeGame.score g' <= SnakeGame.high_score g'.
Proof.
  intros r r' ops g' Hr Hst.
  destruct (game_run_wf ops _ (snd (SnakeGame.init r)) (game_wf_init r))
    as (g2 & r2 & Hr2 & Hwf).
  rewrite Hr in Hr2. injection Hr2 as <- <-.
  destruct Hwf as (Hs & _ & Hsc & _ & _ & Hover).
  destruct (Hover Hst) as [Hc Hle].
  pose proof (collision_needs_five _ Hs Hc) as Hlen.
  split; [exact Hc |]. split; [exact Hlen |].
  unfold segments_due in Hsc.
  destruct (Snake.grow_pending (SnakeGame.snake g')); lia.
Qed.

Lemma game_over_bounds_witness :
  exists g' r',
    game_run (fst (SnakeGame.init rng_square)) (snd (SnakeGame.init rng_square)) ops_square
    = Some (g', r') /\
    SnakeGame.state g' = GAME_OVER /\
    (5 <= length (Snake.body (SnakeGame.snake g')))%nat /\
    40 <= SnakeGame.score g' <= SnakeGame.high_score g'.
Proof.
  assert (H : exists g' r',
             game_run (fst (SnakeGame.init rng_square)) (snd (SnakeGame.init rng_square))
                      ops_square = Some (g', r') /\
             SnakeGame.state g' = GAME_OVER).
  { do 2 eexists. split; vm_compute; reflexivity. }
  destruct H as (g' & r' & Hr & Hst).
  exists g', r'. split; [exact Hr |]. split; [exact Hst |].
  exact (proj2 (game_over_bounds rng_square r' ops_square g' Hr Hst)).
Defined.

(** ** The main loop *)

Lemma run_stopped (polls : list (list Event)) (g : SnakeGame.t) (r : Random.t) :
  SnakeGame.running g = false -> run g r polls = Exited g r.
Proof. intro Hr. destruct polls; cbn [run]; rewrite Hr; reflexivity. Qed.

Lemma run_wf (polls : list (list Event)) (g : SnakeGame.t) (r : Random.t) :
  game_wf g ->
  match run g r polls with
  | Exited g' _ => SnakeGame.running g' = false /\ game_wf g'
  | Polling g' _ => SnakeGame.running g' = true /\ game_wf g'
  | Raised => False
  end.
Proof.
  revert g r. induction polls as [| events polls IH]; intros g r Hwf.
  - cbn [run]. destruct (SnakeGame.running g) eqn:Hr; auto.
  - cbn [run]. destruct (SnakeGame.running g) eqn:Hr; [| auto].
    pose proof (game_wf_handle_input events g r Hwf) as H1.
    destruct (SnakeGame.handle_input g r events) as [g1 r1]. cbn [fst] in H1.
    destruct (game_step_wf g1 r1 DoUpdate H1) as (g2 & r2 & Hu & H2).
    cbn [game_step] in Hu. rewrite Hu. apply IH. exact H2.
Qed.

(** X12: started on a new controller, the main loop never raises,
    whatever the polls return; when it has left its [while] the
    [running] flag is false, and while it waits for a further poll the
    flag is true. *)
Theorem run_never_raises :
  forall (r : Random.t) (polls : list (list Event)),
    match run (fst (SnakeGame.init r)) (snd (SnakeGame.init r)) polls with
    | Exited g' _ => SnakeGame.running g' = false
    | Polling g' _ => SnakeGame.running g' = true
    | Raised => False
    end.
Proof.
  intros r polls.
  pose proof (run_wf polls _ (snd (SnakeGame.init r)) (game_wf_init r)) as H.
  destruct (run (fst (SnakeGame.init r)) (snd (SnakeGame.init r)) polls);
    [apply H | apply H | exact H].
Qed.

(** X13: when a poll holds a quit event, the loop still runs the tick of
    that iteration on the game the poll left, then leaves its [while]
    without reading any later poll. *)
Theorem run_quit_finishes_tick :
  forall (g : SnakeGame.t) (r : Random.t) (events : list Event)
         (rest : list (list Event)),
    SnakeGame.running g = true ->
    Snake.body (SnakeGame.snake g) <> [] ->
    existsb is_quit events = true ->
    exists g' r',
      SnakeGame.update (fst (SnakeGame.handle_input g r events))
                       (snd (SnakeGame.handle_input g r events)) = Some (g', r') /\
      run g r (events :: rest) = Exited g' r'.
Proof.
  intros g r events rest Hrun Hne Hq.
  pose proof (handle_input_quit events g r Hq) as Hoff.
  destruct (handle_input_keeps events g r Hne) as [_ Hne1].
  cbn [run]. rewrite Hrun.
  destruct (SnakeGame.handle_input g r events) as [g1 r1]. cbn [fst snd] in *.
  destruct (game_step_keeps g1 r1 DoUpdate Hne1) as (g2 & r2 & Hu & _).
  cbn [game_step] in Hu. rewrite Hu.
  exists g2, r2. split; [reflexivity |].
  apply run_stopped.
  destruct (SnakeGame_update_frame g1 g2 r1 r2 Hu) as [-> _]. exact Hoff.
Qed.

Lemma run_quit_finishes_tick_witness :
  (SnakeGame.running game3 = true /\
   Snake.body (SnakeGame.snake game3) <> [] /\
   existsb is_quit [KEYDOWN K_UP; QUIT] = true) /\
  exists g' r',
    run game3 rng0 [[KEYDOWN K_UP; QUIT]; [KEYDOWN K_LEFT]] = Exited g' r' /\
    Snake.body (SnakeGame.snake g') = [Position.mk 5 4; Position.mk 5 5; Position.mk 4 5].
Proof.
  assert (Hne : Snake.body (SnakeGame.snake game3) <> []) by discriminate.
  split; [split; [reflexivity | split; [exact Hne | reflexivity]] |].
  destruct (run_quit_finishes_tick game3 rng0 [KEYDOWN K_UP; QUIT] [[KEYDOWN K_LEFT]]
              eq_refl Hne eq_refl) as (g' & r' & Hu & Hrun).
  exists g', r'. split; [exact Hrun |].
  vm_compute in Hu. injection Hu as <- _. reflexivity.
Defined.

(** ** Drawing *)






(** ** High score *)

Lemma handle_event_high_score (g : SnakeGame.t) (r : Random.t) (e : Event) :
  SnakeGame.high_score (fst (SnakeGame.handle_event g r e)) = SnakeGame.high_score g.
Proof.
  unfold SnakeGame.handle_event.
  destruct e as [| key |]; [reflexivity | | reflexivity].
  destruct (SnakeGame.state g); destruct key;
    rewrite ?start_game_fields; reflexivity.
Qed.

Lemma handle_input_high_score (events : list Event) (g : SnakeGame.t) (r : Random.t) :
  SnakeGame.high_score (fst (SnakeGame.handle_input g r events)) = SnakeGame.high_score g.
Proof.
  revert g r. induction events as [| e events IH]; intros g r.
  - reflexivity.
  - cbn [SnakeGame.handle_input].
    pose proof (handle_event_high_score g r e) as H1.
    destruct (SnakeGame.handle_event g r e) as [g1 r1]. cbn [fst] in H1.
    rewrite IH. exact H1.
Qed.

(** X16: the high score is only ever changed by the tick that ends a
    game, and only when that game's score beats it; it is then set to
    that score.  Input handling and restarting leave it as it is. *)
Theorem high_score_changes_only_at_game_over :
  forall (g g' : SnakeGame.t) (r r' : Random.t) (op : GameOp),
    game_step g r op = Some (g', r') ->
    SnakeGame.high_score g' <> SnakeGame.high_score g ->
    op = DoUpdate /\
    SnakeGame.state g = PLAYING /\
    SnakeGame.state g' = GAME_OVER /\
    SnakeGame.high_score g < SnakeGame.score g' /\
    SnakeGame.high_score g' = SnakeGame.score g'.
Proof.
  intros g g' r r' op Hs Hchg. destruct op as [events | |]; cbn [game_step] in Hs.
  - exfalso. apply Hchg. injection Hs as Hs.
    change g' with (fst (g', r')). rewrite <- Hs. apply handle_input_high_score.
  - exfalso. apply Hchg. rewrite start_game_fields in Hs. injection Hs as <- _.
    reflexivity.
  - destruct (SnakeGame.state g) eqn:Hst.
    + rewrite SnakeGame_update_idle in Hs by (rewrite Hst; discriminate).
      injection Hs as <- _. contradiction Hchg; reflexivity.
    + destruct (Snake.update (SnakeGame.snake g)) as [s1 |] eqn:Hu.
      * destruct (Snake.body s1) as [| h1 tl1] eqn:Hb1.
        { exfalso. exact (Snake_update_nonempty _ _ Hu Hb1). }
        rewrite (SnakeGame_update_playing g r s1 h1 tl1 Hst Hu Hb1) in Hs.
        unfold tick_result in Hs. injection Hs as <- _.
        cbn [SnakeGame.high_score SnakeGame.state SnakeGame.score] in Hchg |- *.
        destruct (existsb (Position.eq h1) tl1);
          [| contradiction Hchg; reflexivity].
        match goal with |- context [?a >? ?b] => destruct (Z.gtb_spec a b) end;
          [| contradiction Hchg; reflexivity].
        repeat split; [lia].
      * unfold SnakeGame.update, SnakeGame.advance_snake in Hs.
        rewrite Hst, Hu in Hs. discriminate Hs.
    + rewrite SnakeGame_update_idle in Hs by (rewrite Hst; discriminate).
      injection Hs as <- _. contradiction Hchg; reflexivity.
Qed.

Lemma high_score_changes_only_at_game_over_witness :
  game_step game_loop rng0 DoUpdate
  = Some (SnakeGame.mk GAME_OVER
            (Snake.mk [Position.mk 1 0; Position.mk 0 0; Position.mk 1 0] RIGHT RIGHT false)
            (Food.mk (Position.mk 9 9)) 30 30 true,
          rng0) /\
  30 <> SnakeGame.high_score game_loop /\
  SnakeGame.state game_loop = PLAYING.
Proof.
  assert (Hne : 30 <> SnakeGame.high_score game_loop) by discriminate.
  split; [reflexivity |]. split; [exact Hne |].
  exact (proj1 (proj2 (high_score_changes_only_at_game_over
                         game_loop _ rng0 rng0 DoUpdate eq_refl Hne))).
Defined.
